(** * Resilient adaptive dispatch engine: circuit breakers, error recovery,
      throttling and the bounded result cache.

    A shallow embedding of
    - [src/stability/CircuitBreaker.js]            (module [CircuitBreaker]),
    - [src/stability/ErrorRecoverySystem.js]       (module [ErrorRecoverySystem];
      the class [ErrorRecoverySystem], under the path its tests import it
      from),
    - [src/performance/PerformanceOptimizer.js]    (module [PerformanceOptimizer]),
    - [src/core/UltraStableResizeSystem.js]        (modules [WeakRefCache],
      [SmartCircuitBreaker] and [UltraStableResizeSystemV2]),
    followed by the properties of the specification that are settled on it.

    Conventions.  A JavaScript method that mutates [this] becomes a function
    from the receiver to the updated receiver.  Everything a method observes
    from the host (the wall clock, the high-resolution timer, the random
    source, what an awaited callback settles with) lives in a [World]; such
    methods run in the state monad [M] over it.  Counters, thresholds and
    millisecond timestamps are integers ([Z]).  The numbers of the
    [PerformanceOptimizer] and the rectangles of DOM elements are binary64
    values ([float]), with the rounding of the JavaScript operations; the
    delays, rates, durations and random draws of the other classes are
    exact rationals ([Q]), the values of the JavaScript doubles. *)

From Stdlib Require Import ZArith QArith Qminmax Qpower Lia.
From Stdlib Require Import Floats.
From stdpp Require Import base option list strings gmap.

(* A decimal literal of type [float] denotes the nearest binary64 value. *)
Set Warnings "-inexact-float".

Local Open Scope Z_scope.

(* ===================================================================== *)
(** * The host runtime                                                    *)
(* ===================================================================== *)

Module Runtime.

(** An [Error] object as the engine reads it: [error.constructor.name]
    and [error.message]. *)
Record Error := mkError { constructor_name : string; message : string }.

(** What a caller's operation resolves with.  The engine never inspects
    it. *)
Inductive Value :=
| Null
| Str (s : string)
| Num (n : Z).

(** What awaiting a promise gives: it resolves with a value, it rejects
    with an error (a synchronous [throw] inside an [async] function is a
    rejection too), or it never settles and the awaiting function never
    resumes. *)
Inductive Completion (A : Type) :=
| Resolves (a : A)
| Rejects (e : Error)
| Pending.
Arguments Resolves {A} a.
Arguments Rejects {A} e.
Arguments Pending {A}.

(** The object literal built by [gracefulDegradation] and by
    [executeGracefulFallback]; [error] is [None] for [undefined]. *)
Record DegradedResult (C : Type) := mkDegraded {
  success : bool;
  mode : string;
  error : option string;
  fallbackActive : bool;
  context : C
}.
Arguments mkDegraded {C}.
Arguments success {C}.
Arguments mode {C}.
Arguments error {C}.
Arguments fallbackActive {C}.
Arguments context {C}.

(** What the resilience wrappers hand back: the operation's own result or
    the degraded object. *)
Inductive Outcome (C : Type) :=
| Result (v : Value)
| Degraded (d : DegradedResult C).
Arguments Result {C} v.
Arguments Degraded {C} d.

(** The observable actions of the engine on its collaborators. *)
Inductive Event :=
| EvOperation                (* the caller's [operation()] was invoked   *)
| EvFallback                 (* the caller's [fallback()] was invoked    *)
| EvStrategy (errorType : string) (* a recovery strategy was invoked     *)
| EvSleep (ms : Q)           (* [sleep(ms)] was awaited                  *)
| EvRun (method : string)    (* an execution backend was run             *)
| EvMeasure (element : nat). (* [getBoundingClientRect()] was called on
                                the element with this identity            *)

(** The host.  [clock n] is what the [n]-th call of [Date.now()] returns,
    [perf n] the [n]-th [performance.now()], [rand n] the [n]-th
    [Math.random()]; the counters say how many readings were taken, and
    [log] is the chronological list of actions performed so far. *)
Record World := mkWorld {
  clock : nat -> Z;
  reads : nat;
  perf : nat -> Q;
  preads : nat;
  rand : nat -> Q;
  draws : nat;
  log : list Event
}.

Definition M (A : Type) : Type := World -> A * World.

Definition ret {A} (a : A) : M A := fun w => (a, w).

Definition bind {A B} (m : M A) (k : A -> M B) : M B :=
  fun w => let (a, w') := m w in k a w'.

Declare Scope monad_scope.
Delimit Scope monad_scope with monad.
Notation "x <- c1 ;; c2" := (bind c1 (fun x => c2))
  (at level 100, c1 at next level, right associativity) : monad_scope.
Notation "c1 ;;; c2" := (bind c1 (fun _ => c2))
  (at level 100, right associativity) : monad_scope.

(** The world after one more reading of the wall clock, and after one
    more action. *)
Definition ticked (w : World) : World :=
  mkWorld (clock w) (S (reads w)) (perf w) (preads w) (rand w) (draws w) (log w).

Definition logged (e : Event) (w : World) : World :=
  mkWorld (clock w) (reads w) (perf w) (preads w) (rand w) (draws w)
          (log w ++ [e]).

(** [Date.now()] *)
Definition Date_now : M Z := fun w => (clock w (reads w), ticked w).

(** The world after one more reading of the high-resolution timer. *)
Definition timed (w : World) : World :=
  mkWorld (clock w) (reads w) (perf w) (S (preads w)) (rand w) (draws w) (log w).

(** [performance.now()] *)
Definition performance_now : M Q := fun w => (perf w (preads w), timed w).

(** [Math.random()] *)
Definition Math_random : M Q := fun w =>
  (rand w (draws w),
   mkWorld (clock w) (reads w) (perf w) (preads w) (rand w) (S (draws w)) (log w)).

Definition emit (e : Event) : M unit := fun w => (tt, logged e w).

Definition is_operation (e : Event) : bool :=
  match e with EvOperation => true | _ => false end.

(** Number of times the caller's operation has been invoked. *)
Fixpoint invocations (l : list Event) : nat :=
  match l with
  | [] => 0
  | e :: l' => ((if is_operation e then 1 else 0) + invocations l')%nat
  end.

(** A caller's operation: what its [n]-th invocation (counting every
    invocation recorded in the log) settles with. *)
Definition Operation := nat -> Completion Value.

(** An operation every invocation of which rejects. *)
Definition always_fails (operation : Operation) : Prop :=
  forall n, exists e, operation n = Rejects e.

(** [await operation()] *)
Definition invoke (operation : Operation) : M (Completion Value) := fun w =>
  (operation (invocations (log w)), logged EvOperation w).

(** [await this.sleep(ms)] *)
Definition sleep (ms : Q) : M unit := emit (EvSleep ms).

(** JavaScript's [ToNumber] on a timestamp field that may still be
    [null]: [Date.now() - null] is [Date.now() - 0]. *)
Definition to_number (t : option Z) : Z :=
  match t with Some z => z | None => 0 end.

(** [a > b] on JavaScript numbers given by their exact values. *)
Definition Qgtb (a b : Q) : bool :=
  match (a ?= b)%Q with Gt => true | _ => false end.

(** The world after [n] more readings of the wall clock. *)
Definition advance (n : nat) (w : World) : World := Nat.iter n ticked w.

(** The next [n] readings of the wall clock all return [t]: the clock
    does not advance while a synchronous stretch of code runs. *)
Definition steady (w : World) (n : nat) (t : Z) : Prop :=
  forall i : nat, (i < n)%nat -> clock w (reads w + i)%nat = t.

(** A world at rest: a clock that reads [t0] and then advances by [step]
    at every reading, a frozen timer, a constant random source. *)
Definition ticking (t0 step : Z) (r : Q) : World :=
  mkWorld (fun n => t0 + step * Z.of_nat n) 0 (fun _ => 0%Q) 0 (fun _ => r) 0 [].

(** A world whose clock returns [t0] for its first [k] readings and [t1]
    from then on. *)
Definition stepping (k : nat) (t0 t1 : Z) : World :=
  mkWorld (fun n => if (n <? k)%nat then t0 else t1) 0 (fun _ => 0%Q) 0
          (fun _ => 0%Q) 0 [].

End Runtime.

Import Runtime.
Local Open Scope monad_scope.

(* ===================================================================== *)
(** * [src/stability/CircuitBreaker.js]                                   *)
(* ===================================================================== *)

Module CircuitBreaker.

Inductive State := CLOSED | OPEN | HALF_OPEN.

Record Config := mkConfig {
  failureThreshold : Z;
  recoveryTimeout : Z;
  monitoringWindow : Z;
  successThreshold : Z
}.

Definition defaults : Config := mkConfig 10 5000 60000 3.

Record Failure := mkFailure { failure_error : string; timestamp : Z }.

Record t := mk {
  config : Config;
  state : State;
  failureCount : Z;
  successCount : Z;
  lastFailureTime : option Z;
  failureHistory : list Failure
}.

(** [constructor(options)] *)
Definition new (options : Config) : t := mk options CLOSED 0 0 None [].

(** The second argument of [execute]: a function to call, or a plain
    value (default [null]) to return as it is. *)
Inductive Fallback :=
| FallbackFunction (settles : Completion Value)
| FallbackValue (v : Value).

(** [executeFallback(fallback)] *)
Definition executeFallback (fallback : Fallback) : M (Completion Value) :=
  match fallback with
  | FallbackFunction settles => emit EvFallback ;;; ret settles
  | FallbackValue v => ret (Resolves v)
  end.

(** [reset()] *)
Definition reset (self : t) : t :=
  mk (config self) CLOSED 0 0 (lastFailureTime self) [].

(** [onSuccess()] *)
Definition onSuccess (self : t) : t :=
  let self := mk (config self) (state self) (failureCount self)
                 (successCount self + 1) (lastFailureTime self)
                 (failureHistory self) in
  match state self with
  | HALF_OPEN =>
      if successThreshold (config self) <=? successCount self
      then reset self else self
  | _ => self
  end.

(** [cleanFailureHistory()] *)
Definition cleanFailureHistory (self : t) : M t :=
  now <- Date_now ;;
  let cutoff := now - monitoringWindow (config self) in
  ret (mk (config self) (state self) (failureCount self) (successCount self)
          (lastFailureTime self)
          (filter (fun failure => cutoff < timestamp failure) (failureHistory self))).

(** [shouldOpenCircuit()] *)
Definition shouldOpenCircuit (self : t) : bool :=
  failureThreshold (config self) <=? failureCount self.

(** [openCircuit()] *)
Definition openCircuit (self : t) : t :=
  mk (config self) OPEN (failureCount self) 0 (lastFailureTime self)
     (failureHistory self).

(** [shouldAttemptRecovery()] *)
Definition shouldAttemptRecovery (self : t) : M bool :=
  now <- Date_now ;;
  ret (recoveryTimeout (config self) <=? now - to_number (lastFailureTime self)).

(** [onFailure(error)] *)
Definition onFailure (err : Error) (self : t) : M t :=
  t1 <- Date_now ;;
  t2 <- Date_now ;;
  let self := mk (config self) (state self) (failureCount self + 1)
                 (successCount self) (Some t1)
                 (failureHistory self ++ [mkFailure (message err) t2]) in
  self <- cleanFailureHistory self ;;
  ret (if shouldOpenCircuit self then openCircuit self else self).

(** The [try { ... } catch (error) { ... }] block of [execute]. *)
Definition attempt (operation : Operation) (fallback : Fallback) (self : t)
  : M (Completion Value * t) :=
  settled <- invoke operation ;;
  match settled with
  | Resolves result => ret (Resolves result, onSuccess self)
  | Rejects err =>
      self <- onFailure err self ;;
      r <- executeFallback fallback ;;
      ret (r, self)
  | Pending => ret (Pending, self)
  end.

(** [execute(operation, fallback = null)] *)
Definition execute (operation : Operation) (fallback : Fallback) (self : t)
  : M (Completion Value * t) :=
  match state self with
  | OPEN =>
      recover <- shouldAttemptRecovery self ;;
      if recover
      then attempt operation fallback
             (mk (config self) HALF_OPEN (failureCount self) (successCount self)
                 (lastFailureTime self) (failureHistory self))
      else r <- executeFallback fallback ;; ret (r, self)
  | _ => attempt operation fallback self
  end.

(** A sequence of [execute] calls on one breaker, none overlapping
    another: how each returned promise settles, first to last, and the
    breaker at the end. *)
Fixpoint run (calls : list (Operation * Fallback)) (self : t)
  : M (list (Completion Value) * t) :=
  match calls with
  | [] => ret ([], self)
  | (operation, fallback) :: calls' =>
      r <- execute operation fallback self ;;
      rs <- run calls' r.2 ;;
      ret (r.1 :: rs.1, rs.2)
  end.

(** What [execute] hands back when it short-circuits to the fallback. *)
Definition fallback_result (fallback : Fallback) : Completion Value :=
  match fallback with
  | FallbackFunction settles => settles
  | FallbackValue v => Resolves v
  end.

(** What every reachable breaker satisfies: the circuit is away from
    [CLOSED] only while the failure count is at the threshold or above. *)
Definition tripped (self : t) : Prop :=
  state self <> CLOSED -> failureThreshold (config self) <= failureCount self.

(** The breakers a program can hold: a fresh one, or one on which
    [execute] has been called. *)
Inductive reachable : t -> Prop :=
| reachable_new (options : Config) : reachable (new options)
| reachable_execute (operation : Operation) (fallback : Fallback)
    (self self' : t) (w w' : World) (r : Completion Value) :
    reachable self ->
    execute operation fallback self w = (r, self', w') ->
    reachable self'.

End CircuitBreaker.

(* ===================================================================== *)
(** * [src/core/UltraStableResizeSystem.js]: [SmartCircuitBreaker]        *)
(* ===================================================================== *)

Module SmartCircuitBreaker.

Inductive State := CLOSED | OPEN | HALF_OPEN.

Record Config := mkConfig {
  failureThreshold : Z;
  recoveryTimeout : Z;
  monitoringWindow : Z;
  successThreshold : Z;
  adaptiveLearning : bool
}.

Definition defaults : Config := mkConfig 10 5000 60000 3 true.

Record Failure := mkFailure {
  timestamp : Z;
  failure_error : string;
  duration : Q;
  type : string
}.

Record Success := mkSuccess { success_timestamp : Z; success_duration : Q }.

Record Pattern := mkPattern { count : Z; avgDuration : Q }.

Record t := mk {
  config : Config;
  state : State;
  failures : list Failure;
  successes : list Success;
  errorPatterns : gmap string Pattern
}.

(** [constructor(options)] *)
Definition new (options : Config) : t := mk options CLOSED [] [] ∅.

(** [array.filter(x => ...)] with a callback that reads the clock: the
    callback runs once per element, in order. *)
Fixpoint filterM {A} (p : A -> M bool) (l : list A) : M (list A) :=
  match l with
  | [] => ret []
  | x :: l' =>
      keep <- p x ;;
      rest <- filterM p l' ;;
      ret (if keep : bool then x :: rest else rest)
  end.

(** [cleanupOldRecords()] *)
Definition cleanupOldRecords (self : t) : M t :=
  now <- Date_now ;;
  let cutoff := now - monitoringWindow (config self) in
  ret (mk (config self) (state self)
          (filter (fun f => cutoff < timestamp f) (failures self))
          (filter (fun s => cutoff < success_timestamp s) (successes self))
          (errorPatterns self)).

(** [recordSuccess(duration)] *)
Definition recordSuccess (d : Q) (self : t) : M t :=
  now <- Date_now ;;
  self <- cleanupOldRecords
            (mk (config self) (state self) (failures self)
                (successes self ++ [mkSuccess now d]) (errorPatterns self)) ;;
  ret (match state self with
       | HALF_OPEN =>
           if successThreshold (config self) <=? Z.of_nat (length (successes self))
           then mk (config self) CLOSED (failures self) (successes self)
                   (errorPatterns self)
           else self
       | _ => self
       end).

(** [analyzeErrorPattern(failure)] *)
Definition analyzeErrorPattern (failure : Failure) (self : t) : t :=
  if adaptiveLearning (config self) then
    let pattern := default (mkPattern 0 0%Q) (errorPatterns self !! type failure) in
    let pattern := mkPattern (count pattern + 1)
                             ((avgDuration pattern + duration failure) / 2)%Q in
    mk (config self) (state self) (failures self) (successes self)
       (<[type failure := pattern]> (errorPatterns self))
  else self.

(** [shouldOpenCircuit()] *)
Definition shouldOpenCircuit (self : t) : M bool :=
  recentFailures <- filterM (fun f => now <- Date_now ;;
                                      ret (now - timestamp f <? monitoringWindow (config self)))
                            (failures self) ;;
  ret (failureThreshold (config self) <=? Z.of_nat (length recentFailures)).

(** [shouldAttemptRecovery()]: [lastFailure && ...] reads the clock only
    when there is a last failure. *)
Definition shouldAttemptRecovery (self : t) : M bool :=
  match last (failures self) with
  | None => ret false
  | Some lastFailure =>
      now <- Date_now ;;
      ret (recoveryTimeout (config self) <=? now - timestamp lastFailure)
  end.

(** [openCircuit()] *)
Definition openCircuit (self : t) : t :=
  mk (config self) OPEN (failures self) [] (errorPatterns self).

(** [recordFailure(error, duration)] *)
Definition recordFailure (err : Error) (d : Q) (self : t) : M t :=
  now <- Date_now ;;
  let failure := mkFailure now (message err) d (constructor_name err) in
  let self := mk (config self) (state self) (failures self ++ [failure])
                 (successes self) (errorPatterns self) in
  let self := analyzeErrorPattern failure self in
  self <- cleanupOldRecords self ;;
  open <- shouldOpenCircuit self ;;
  ret (if open : bool then openCircuit self else self).

(** [executeGracefulFallback(context, error = null)] *)
Definition executeGracefulFallback {C} (context : C) (err : option Error)
  : DegradedResult C :=
  mkDegraded false "degraded" (message <$> err) true context.

(** The rejection produced by [createTimeoutPromise(timeout)]. *)
Definition timeoutError : Error :=
  mkError "Error" "Operation timeout after 5000ms".

(** [await Promise.race([operation(), this.createTimeoutPromise(5000)])]:
    the value the race resolves with, or the error it rejects with.  For
    this call [Pending] means that the operation has not settled when the
    5000 ms timer fires; the timer's rejection then wins the race. *)
Definition race (operation : Operation) : M (Value + Error) :=
  settled <- invoke operation ;;
  ret (match settled with
       | Resolves result => inl result
       | Rejects err => inr err
       | Pending => inr timeoutError
       end).

(** The part of [execute] from [const startTime = performance.now()] on. *)
Definition attempt {C} (operation : Operation) (context : C) (self : t)
  : M (Outcome C * t) :=
  startTime <- performance_now ;;
  settled <- race operation ;;
  match settled with
  | inl result =>
      endTime <- performance_now ;;
      self <- recordSuccess (endTime - startTime)%Q self ;;
      ret (Result result, self)
  | inr err =>
      endTime <- performance_now ;;
      self <- recordFailure err (endTime - startTime)%Q self ;;
      ret (Degraded (executeGracefulFallback context (Some err)), self)
  end.

(** [execute(operation, context = {})] *)
Definition execute {C} (operation : Operation) (context : C) (self : t)
  : M (Outcome C * t) :=
  match state self with
  | OPEN =>
      recover <- shouldAttemptRecovery self ;;
      if recover
      then attempt operation context
             (mk (config self) HALF_OPEN (failures self) (successes self)
                 (errorPatterns self))
      else ret (Degraded (executeGracefulFallback context None), self)
  | _ => attempt operation context self
  end.

(** The state in which [execute] makes its attempt, when it makes one:
    an open circuit is probed half-open. *)
Definition probing (self : t) : State :=
  match state self with
  | OPEN => HALF_OPEN
  | s => s
  end.

End SmartCircuitBreaker.

(* ===================================================================== *)
(** * [src/stability/ErrorRecoverySystem.js]                              *)
(* ===================================================================== *)

Module ErrorRecoverySystem.

Record Config := mkConfig {
  maxRetryAttempts : Z;
  retryDelay : Q;
  backoffMultiplier : Q;
  maxBackoffDelay : Q;
  enableLearning : bool
}.

Definition defaults : Config := mkConfig 3 1000 2 10000 true.

(** The [context] object: its [elements] property, which the retry loop
    may overwrite, and its other properties. *)
Record Context := mkContext {
  elements : option (list Value);
  properties : list (string * Value)
}.

(** [{}] *)
Definition emptyContext : Context := mkContext None [].

(** What a recovery strategy resolves with: [{ strategy, success,
    recoveredElements }], the last [None] when absent. *)
Record RecoveryResult := mkRecovery {
  strategy : string;
  recovery_success : bool;
  recoveredElements : option (list Value)
}.

(** A registered strategy: how [await strategy(error, context)] settles. *)
Definition Strategy := Error -> Context -> Completion RecoveryResult.

Record Recovery := mkEntry {
  entry_error : string;
  attempts : Z;
  entry_success : bool;
  timestamp : Z;
  entry_context : Context
}.

Record t := mk {
  config : Config;
  recoveryStrategies : gmap string Strategy;
  recoveryHistory : list Recovery;
  successfulStrategies : gmap string Z;
  failedStrategies : gmap string Z
}.

(** [registerStrategy(errorType, strategy)] *)
Definition registerStrategy (errorType : string) (s : Strategy) (self : t) : t :=
  mk (config self) (<[errorType := s]> (recoveryStrategies self))
     (recoveryHistory self) (successfulStrategies self) (failedStrategies self).

(** [registerDefaultStrategies()], as the five strategies settle in a
    browser (where [window] and [document] exist and the document has
    loaded): their helper methods only log, and [reFindElements] returns
    the empty array. *)
Definition registerDefaultStrategies (self : t) : t :=
  let self := registerStrategy "MemoryError"
                (fun _ _ => Resolves (mkRecovery "memory_cleanup" true None)) self in
  let self := registerStrategy "TypeError"
                (fun _ _ => Resolves (mkRecovery "type_recovery" true None)) self in
  let self := registerStrategy "ReferenceError"
                (fun _ _ => Resolves (mkRecovery "reference_recovery" true None)) self in
  let self := registerStrategy "DOMError"
                (fun _ _ => Resolves (mkRecovery "dom_recovery" true (Some []))) self in
  registerStrategy "NetworkError"
    (fun _ _ => Resolves (mkRecovery "network_recovery" true None)) self.

(** [constructor(options)] *)
Definition new (options : Config) : t :=
  registerDefaultStrategies (mk options ∅ [] ∅ ∅).

(** [recordStrategySuccess(errorType, strategy)] *)
Definition recordStrategySuccess (errorType name : string) (self : t) : t :=
  let key := (errorType +:+ ":" +:+ name)%string in
  let current := default 0 (successfulStrategies self !! key) in
  mk (config self) (recoveryStrategies self) (recoveryHistory self)
     (<[key := current + 1]> (successfulStrategies self)) (failedStrategies self).

(** [recordStrategyFailure(errorType, strategy)] *)
Definition recordStrategyFailure (errorType name : string) (self : t) : t :=
  let key := (errorType +:+ ":" +:+ name)%string in
  let current := default 0 (failedStrategies self !! key) in
  mk (config self) (recoveryStrategies self) (recoveryHistory self)
     (successfulStrategies self) (<[key := current + 1]> (failedStrategies self)).

(** [attemptRecovery(error, context)] *)
Definition attemptRecovery (error : Error) (context : Context) (self : t)
  : M (Completion RecoveryResult * t) :=
  let errorType := constructor_name error in
  match recoveryStrategies self !! errorType with
  | None => ret (Resolves (mkRecovery "none" false None), self)
  | Some strategy =>
      emit (EvStrategy errorType) ;;;
      match strategy error context with
      | Resolves recoveryResult =>
          ret (Resolves recoveryResult,
               if enableLearning (config self) && recovery_success recoveryResult
               then recordStrategySuccess errorType (ErrorRecoverySystem.strategy recoveryResult) self
               else self)
      | Rejects recoveryError =>
          ret (Resolves (mkRecovery "failed" false None),
               if enableLearning (config self)
               then recordStrategyFailure errorType "unknown" self
               else self)
      | Pending => ret (Pending, self)
      end
  end.

(** [calculateBackoffDelay(attempt)] *)
Definition calculateBackoffDelay (attempt : Z) (self : t) : Q :=
  let delay := (retryDelay (config self)
                * backoffMultiplier (config self) ^ (attempt - 1))%Q in
  Qmin delay (maxBackoffDelay (config self)).

(** [gracefulDegradation(error, context)] *)
Definition gracefulDegradation (error : Error) (context : Context)
  : DegradedResult Context :=
  mkDegraded false "degraded" (Some (message error)) true context.

(** [recordRecoverySuccess(error, attempts, context)] *)
Definition recordRecoverySuccess (error : Error) (n : Z) (context : Context)
    (self : t) : M t :=
  now <- Date_now ;;
  ret (mk (config self) (recoveryStrategies self)
          (recoveryHistory self ++ [mkEntry (constructor_name error) n true now context])
          (successfulStrategies self) (failedStrategies self)).

(** [recordRecoveryFailure(error, attempts, context)] *)
Definition recordRecoveryFailure (error : Error) (n : Z) (context : Context)
    (self : t) : M t :=
  now <- Date_now ;;
  ret (mk (config self) (recoveryStrategies self)
          (recoveryHistory self ++ [mkEntry (constructor_name error) n false now context])
          (successfulStrategies self) (failedStrategies self)).

(** Reading [error.constructor] or [error.message] while [lastError] is
    still [null]. *)
Definition nullDereference : Error :=
  mkError "TypeError" "Cannot read properties of null".

(** How control leaves the [while] loop of [executeWithRecovery]. *)
Inductive LoopExit :=
| Return (result : Value) (context : Context) (self : t)
    (* [return result] *)
| Fallthrough (attempt : Z) (lastError : option Error) (context : Context) (self : t)
    (* the loop condition is false, or [break] *)
| Throw (error : Error) (context : Context) (self : t)
    (* an exception escapes the [catch] block *)
| Hang (context : Context) (self : t).
    (* an awaited promise never settles *)

(** The [catch (error) { ... }] block of the loop body; [continue] is the
    rest of the loop, entered at the loop condition with the given
    [attempt], [lastError], [context] and receiver. *)
Definition catchBlock
    (continue : Z -> option Error -> Context -> t -> M (option LoopExit))
    (error : Error) (attempt : Z) (context : Context) (self : t)
  : M (option LoopExit) :=
  let lastError := Some error in
  let attempt := attempt + 1 in
  if attempt <? maxRetryAttempts (config self) then
    r <- attemptRecovery error context self ;;
    let (recovered, self) := r in
    match recovered with
    | Resolves recoveryResult =>
        if recovery_success recoveryResult then
          let delay := calculateBackoffDelay attempt self in
          sleep delay ;;;
          let context :=
            match recoveredElements recoveryResult with
            | Some els => mkContext (Some els) (properties context)
            | None => context
            end in
          continue attempt lastError context self
        else
          ret (Some (Fallthrough attempt lastError context self))
    | Rejects e => ret (Some (Throw e context self))
    | Pending => ret (Some (Hang context self))
    end
  else continue attempt lastError context self.

(** The [while (attempt < this.config.maxRetryAttempts)] loop.  [fuel]
    bounds the number of iterations of the model; [None] means that it
    ran out. *)
Fixpoint retryLoop (fuel : nat) (operation : Operation) (attempt : Z)
    (lastError : option Error) (context : Context) (self : t)
  : M (option LoopExit) :=
  if attempt <? maxRetryAttempts (config self) then
    match fuel with
    | O => ret None
    | S fuel =>
        (* [try { ... }] *)
        settled <- invoke operation ;;
        match settled with
        | Resolves result =>
            if 0 <? attempt then
              match lastError with
              | Some e =>
                  self <- recordRecoverySuccess e attempt context self ;;
                  ret (Some (Return result context self))
              | None =>
                  catchBlock (retryLoop fuel operation) nullDereference attempt
                             context self
              end
            else ret (Some (Return result context self))
        | Rejects error =>
            catchBlock (retryLoop fuel operation) error attempt context self
        | Pending => ret (Some (Hang context self))
        end
    end
  else ret (Some (Fallthrough attempt lastError context self)).

(** [executeWithRecovery(operation, context = {})]: how the returned
    promise settles, with the context object and the receiver as the call
    leaves them; [None] if the model of the loop ran out of fuel. *)
Definition executeWithRecovery (operation : Operation) (context : Context)
    (self : t) : M (option (Completion (Outcome Context) * Context * t)) :=
  exit <- retryLoop (Z.to_nat (maxRetryAttempts (config self))) operation 0 None
                    context self ;;
  match exit with
  | None => ret None
  | Some (Return result context self) =>
      ret (Some (Resolves (Result result), context, self))
  | Some (Throw e context self) => ret (Some (Rejects e, context, self))
  | Some (Hang context self) => ret (Some (Pending, context, self))
  | Some (Fallthrough attempt lastError context self) =>
      match lastError with
      | Some e =>
          self <- recordRecoveryFailure e attempt context self ;;
          ret (Some (Resolves (Degraded (gracefulDegradation e context)), context, self))
      | None => ret (Some (Rejects nullDereference, context, self))
      end
  end.

(** The operation rejects at each of its next [n] invocations. *)
Definition fails_next (n : nat) (operation : Operation) (w : World) : Prop :=
  forall i : nat, (i < n)%nat ->
    exists e : Error, operation (invocations (log w) + i)%nat = Rejects e.

(** The strategy registered for the error's kind resolves, whatever the
    context, with a result whose [success] is true. *)
Definition recovers (self : t) (e : Error) : Prop :=
  exists s : Strategy,
    recoveryStrategies self !! constructor_name e = Some s
    /\ forall context : Context,
         exists r : RecoveryResult,
           s e context = Resolves r /\ recovery_success r = true.

(** Every error the operation rejects with at one of its next [n]
    invocations is one that its strategy recovers from. *)
Definition recovers_next (n : nat) (operation : Operation) (self : t)
    (w : World) : Prop :=
  forall (i : nat) (e : Error), (i < n)%nat ->
    operation (invocations (log w) + i)%nat = Rejects e -> recovers self e.

(** Every registered strategy settles: its promise resolves or rejects. *)
Definition strategies_settle (self : t) : Prop :=
  forall (errorType : string) (s : Strategy) (error : Error) (context : Context),
    recoveryStrategies self !! errorType = Some s -> s error context <> Pending.

(** The delay as the specification writes it,
    [min(retryDelay * backoffMultiplier^(attempt-1), maxBackoffDelay)],
    with the power as a repeated product. *)
Fixpoint power (b : Q) (k : nat) : Q :=
  match k with
  | O => 1%Q
  | S k' => (b * power b k')%Q
  end.

Definition backoffDelay (cfg : Config) (attempt : nat) : Q :=
  Qmin (retryDelay cfg * power (backoffMultiplier cfg) (attempt - 1))%Q
       (maxBackoffDelay cfg).

End ErrorRecoverySystem.

(* ===================================================================== *)
(** * [src/core/UltraStableResizeSystem.js]: [WeakRefCache]               *)
(* ===================================================================== *)

Module WeakRefCache.

Section Cache.
Context {K V : Type} `{EqDecision K}.

(** The entries of the underlying [Map], in insertion order, one per
    key; a stored value is the target of its [WeakRef]. *)
Abbreviation Entries := (list (K * V)).

(** [Map.prototype.get] *)
Fixpoint Map_get (key : K) (m : Entries) : option V :=
  match m with
  | [] => None
  | (k, v) :: m' => if decide (k = key) then Some v else Map_get key m'
  end.

(** [Map.prototype.set]: an existing key keeps its position, a new key
    goes last. *)
Fixpoint Map_set (key : K) (value : V) (m : Entries) : Entries :=
  match m with
  | [] => [(key, value)]
  | (k, v) :: m' =>
      if decide (k = key) then (key, value) :: m'
      else (k, v) :: Map_set key value m'
  end.

(** [Map.prototype.delete] *)
Definition Map_delete (key : K) (m : Entries) : Entries :=
  filter (fun e => e.1 ≠ key) m.

(** [this.keys().next().value]; [None] is [undefined]. *)
Definition firstKey (m : Entries) : option K :=
  match m with
  | [] => None
  | (k, _) :: _ => Some k
  end.

Record t := mk {
  entries : Entries;
  maxSize : Z;
  hitCount : Z;
  missCount : Z
}.

(** [constructor(maxSize = 1000)] *)
Definition new (maxSize : Z) : t := mk [] maxSize 0 0.

(** [this.size] *)
Definition size (self : t) : Z := Z.of_nat (length (entries self)).

(** [delete(key)] *)
Definition delete (key : K) (self : t) : t :=
  mk (Map_delete key (entries self)) (maxSize self) (hitCount self)
     (missCount self).

(** [clear()] *)
Definition clear (self : t) : t :=
  mk [] (maxSize self) (hitCount self) (missCount self).

(** [set(key, value)]; deleting the key [undefined] of an empty map
    removes nothing. *)
Definition set (key : K) (value : V) (self : t) : t :=
  let self :=
    if maxSize self <=? size self then
      match firstKey (entries self) with
      | Some k => delete k self
      | None => self
      end
    else self in
  mk (Map_set key value (entries self)) (maxSize self) (hitCount self)
     (missCount self).

(** [get(key)]; [alive] tells which targets the garbage collector has
    not reclaimed when the call is made, so [ref.deref()] is the target
    if [alive] holds of it and [undefined] otherwise. *)
Definition get (alive : V -> bool) (key : K) (self : t) : option V * t :=
  match Map_get key (entries self) with
  | None =>
      (None, mk (entries self) (maxSize self) (hitCount self)
                (missCount self + 1))
  | Some value =>
      if alive value then
        (Some value, mk (entries self) (maxSize self) (hitCount self + 1)
                        (missCount self))
      else
        let self := delete key self in
        (None, mk (entries self) (maxSize self) (hitCount self)
                  (missCount self + 1))
  end.

(** [getHitRate()] *)
Definition getHitRate (self : t) : Q :=
  let total := hitCount self + missCount self in
  if 0 <? total then (inject_Z (hitCount self) / inject_Z total)%Q else 0%Q.

(** [cleanup()] *)
Definition cleanup (alive : V -> bool) (self : t) : t :=
  mk (filter (fun e => alive e.2 = true) (entries self)) (maxSize self)
     (hitCount self) (missCount self).

(** One call on the cache, with the liveness the collector leaves at
    that moment. *)
Inductive Op :=
| OpSet (key : K) (value : V)
| OpGet (alive : V -> bool) (key : K)
| OpDelete (key : K)
| OpCleanup (alive : V -> bool)
| OpClear.

Definition step (self : t) (op : Op) : t :=
  match op with
  | OpSet key value => set key value self
  | OpGet alive key => (get alive key self).2
  | OpDelete key => delete key self
  | OpCleanup alive => cleanup alive self
  | OpClear => clear self
  end.

(** A sequence of calls, first to last. *)
Definition run (ops : list Op) (self : t) : t := foldl step self ops.

End Cache.

Arguments t : clear implicits.
Arguments Op : clear implicits.

End WeakRefCache.

(* ===================================================================== *)
(** * [src/performance/PerformanceOptimizer.js]                           *)
(* ===================================================================== *)

Module PerformanceOptimizer.

(** The numbers of this class are JavaScript numbers as they are:
    binary64 floating-point values, Rocq's [float], with the correctly
    rounded [+], [-], [*] and [/] of IEEE 754 and its comparisons, which
    are false on NaN.  A decimal literal denotes the nearest binary64
    value, here as in JavaScript. *)

(** [Math.min(a, b)] and [Math.max(a, b)]: NaN if either argument is NaN,
    and [-0] counts as smaller than [+0]. *)
Definition Math_min (a b : float) : float :=
  if is_nan a || is_nan b then nan
  else if (a <? b)%float then a
  else if (b <? a)%float then b
  else match classify a with NZero => a | _ => b end.

Definition Math_max (a b : float) : float :=
  if is_nan a || is_nan b then nan
  else if (a <? b)%float then b
  else if (b <? a)%float then a
  else match classify a with PZero => a | _ => b end.

Record Config := mkConfig {
  throttleRate : float;
  performanceBudget : float;
  adaptiveThrottling : bool
}.

Definition defaults : Config := mkConfig 0.98 16 true.

Record FrameMonitor := mkMonitor {
  lastFrameTime : float;
  frameCount : Z;
  fps : float
}.

Record t := mk {
  config : Config;
  skippedFrames : Z;
  performanceHistory : list float;
  adaptiveMultiplier : float;
  frameMonitor : FrameMonitor
}.

(** [detectDeviceCapabilities()]: the multiplier it leaves in
    [this.adaptiveMultiplier], from [navigator.hardwareConcurrency || 4]
    and [navigator.deviceMemory || 4] ([None] when the property is
    absent; [0] and NaN are falsy). *)
Definition detectDeviceCapabilities (hardwareConcurrency memory : option float)
  : float :=
  let or4 (v : option float) : float :=
    match v with
    | Some q => if is_zero q || is_nan q then 4%float else q
    | None => 4%float
    end in
  let cores := or4 hardwareConcurrency in
  let mem := or4 memory in
  if (cores <? 4)%float || (mem <? 4)%float then 1.5%float
  else if (8 <? cores)%float && (8 <? mem)%float then 0.7%float
  else 1.0%float.

(** [constructor(options)] on a device with the given hints; [now] is
    what the one call of [performance.now()] returns, for
    [frameMonitor.lastFrameTime]. *)
Definition new (options : Config) (hardwareConcurrency memory : option float)
    (now : float) : t :=
  mk options 0 [] (detectDeviceCapabilities hardwareConcurrency memory)
     (mkMonitor now 0 60).

(** [array.slice(-n)] *)
Definition slice_last {A} (n : nat) (l : list A) : list A :=
  drop (length l - n) l.

(** [array.reduce((sum, time) => sum + time, 0)] *)
Definition sum (l : list float) : float := foldl PrimFloat.add 0%float l.

(** [calculateAdaptiveThrottling()] *)
Definition calculateAdaptiveThrottling (self : t) : float :=
  let adaptiveRate := throttleRate (config self) in
  let adaptiveRate :=
    if (10 <? length (performanceHistory self))%nat then
      let recentAverage := (sum (slice_last 10 (performanceHistory self)) / 10)%float in
      if (performanceBudget (config self) * 0.8 <? recentAverage)%float then
        Math_min 0.99 (adaptiveRate + 0.01)%float
      else if (recentAverage <? performanceBudget (config self) * 0.3)%float then
        Math_max 0.90 (adaptiveRate - 0.005)%float
      else adaptiveRate
    else adaptiveRate in
  Math_min 0.99 (adaptiveRate * adaptiveMultiplier self)%float.

(** The skip probability that [shouldProcessFrame] applies. *)
Definition effectiveThrottleRate (self : t) : float :=
  if adaptiveThrottling (config self)
  then calculateAdaptiveThrottling self
  else throttleRate (config self).

(** [shouldProcessFrame()], where [currentTime] is what its call of
    [performance.now()] returns and [random] what its call of
    [Math.random()] returns.  The frame counter is telemetry: [fps] is
    written and never read. *)
Definition shouldProcessFrame (currentTime random : float) (self : t) : bool * t :=
  let monitor := frameMonitor self in
  let frameTime := (currentTime - lastFrameTime monitor)%float in
  let count := frameCount monitor + 1 in
  let monitor :=
    mkMonitor (lastFrameTime monitor) count
              (if count mod 60 =? 0 then (1000 / (frameTime / 60))%float
               else fps monitor) in
  let self := mk (config self) (skippedFrames self) (performanceHistory self)
                 (adaptiveMultiplier self) monitor in
  let effectiveThrottleRate := effectiveThrottleRate self in
  if (1 - effectiveThrottleRate <? random)%float then
    (false, mk (config self) (skippedFrames self + 1)
               (performanceHistory self) (adaptiveMultiplier self)
               (frameMonitor self))
  else
    (true, mk (config self) (skippedFrames self) (performanceHistory self)
              (adaptiveMultiplier self)
              (mkMonitor currentTime (frameCount monitor) (fps monitor))).

End PerformanceOptimizer.

(* ===================================================================== *)
(** * [src/core/UltraStableResizeSystem.js]: [UltraStableResizeSystemV2]  *)
(* ===================================================================== *)

(** The registration path ([safeRegisterElement] and the three
    [processWith...] methods) and the resize throttle.  The observers that
    [setupElementObserver] attaches are DOM wiring and are left out. *)
Module UltraStableResizeSystemV2.

(** A [DOMRect]; its fields are JavaScript numbers (binary64). *)
Record Rect := mkRect { x : float; y : float; width : float; height : float }.

(** What one call of [element.getBoundingClientRect()] does: it throws,
    it returns something that is no object ([undefined], [null]), or it
    returns a rectangle. *)
Inductive Measured :=
| Throws
| ReturnsNothing
| Returns (rect : Rect).

(** The properties of [getComputedStyle(element)] that are read. *)
Record Styles := mkStyles {
  display : string;
  visibility : string;
  position : string
}.

(** A DOM element as the system reads it: the object's identity (the
    cache key), its [nodeType] ([0] when the property is missing), what
    its [n]-th call of [getBoundingClientRect()] does (counting every
    call on this element recorded in the log), and what
    [getComputedStyle(element)] returns ([None] when that call throws). *)
Record Element := mkElement {
  identity : nat;
  nodeType : Z;
  getBoundingClientRect : nat -> Measured;
  getComputedStyle : option Styles
}.

(** The per-element [config]; [None] is an absent property. *)
Record ElementConfig := mkElementConfig {
  enableGPU : option bool;
  enableWorkers : option bool
}.

(** The [data] of a result: what the GPU processor computes from a
    rectangle, what the worker posts back, [{ geometry, styles }] of the
    CPU path (a geometry that is no object is [None]), or [undefined]. *)
Inductive Data :=
| GpuGeometry (rect : Rect) (area aspectRatio : float)
| WorkerData (v : Value)
| CpuGeometry (geometry : option Rect) (styles : Styles)
| NoData.

Record ProcessResult := mkResult {
  result_success : bool;
  method : string;
  data : Data;
  element : Element
}.

(** What [safeRegisterElement] stores: [{...result, timestamp, config}]. *)
Record CachedData := mkCached {
  cached : ProcessResult;
  timestamp : Z;
  cachedConfig : ElementConfig
}.

Record GPUProcessor := mkGPU { gpu_isSupported : bool }.
Record WorkerManager := mkWorkers { workers_isSupported : bool }.

Record Metrics := mkMetrics {
  processedElements : Z;
  avgProcessTime : Q;
  gpuAccelerated : Z;
  workerProcessed : Z
}.

Record t := mk {
  throttleRate : Q;
  geometry : WeakRefCache.t nat CachedData;
  gpuProcessor : option GPUProcessor;
  workerManager : option WorkerManager;
  metrics : Metrics
}.

(** What the collaborators do during one registration: how the promise
    of [workerManager.processInWorker(...)] settles, and which cached
    objects are still alive. *)
Record Host := mkHost {
  processInWorker : Completion Value;
  alive : CachedData -> bool
}.

(** Number of calls of [getBoundingClientRect()] made so far on the
    element with the given identity. *)
Fixpoint measurements (id : nat) (l : list Event) : nat :=
  match l with
  | [] => 0
  | EvMeasure id' :: l' =>
      ((if decide (id' = id) then 1 else 0) + measurements id l')%nat
  | _ :: l' => measurements id l'
  end.

(** [element.getBoundingClientRect()] *)
Definition measure (el : Element) : M Measured := fun w =>
  (getBoundingClientRect el (measurements (identity el) (log w)),
   logged (EvMeasure (identity el)) w).

(** [elements.map(el => { const rect = el.getBoundingClientRect();
    return { x: rect.x, ... } })] inside the [try] block of
    [processGeometry]: the elements are measured in order; [None] when a
    call throws or [rect.x] is read from something that is no object. *)
Fixpoint measureAll (elements : list Element) : M (option (list Rect)) :=
  match elements with
  | [] => ret (Some [])
  | el :: elements' =>
      measured <- measure el ;;
      match measured with
      | Returns rect =>
          rest <- measureAll elements' ;;
          ret (cons rect <$> rest)
      | _ => ret None
      end
  end.

(** [GPUProcessor.processGeometry(elements)]; [None] is [null]. *)
Definition processGeometry (gpu : GPUProcessor) (elements : list Element)
  : M (option (list Data)) :=
  if negb (gpu_isSupported gpu) then ret None
  else
    geometries <- measureAll elements ;;
    ret (map (fun geo => GpuGeometry geo (width geo * height geo)%float
                                     (width geo / height geo)%float)
         <$> geometries).

(** [processWithCPU(element, config)]: an exception thrown inside the
    [requestAnimationFrame] callback leaves the promise unsettled. *)
Definition processWithCPU (el : Element) (self : t)
  : M (Completion ProcessResult * t) :=
  emit (EvRun "cpu") ;;;
  measured <- measure el ;;
  match measured, getComputedStyle el with
  | Throws, _ => ret (Pending, self)
  | _, None => ret (Pending, self)
  | ReturnsNothing, Some styles =>
      ret (Resolves (mkResult true "cpu" (CpuGeometry None styles) el), self)
  | Returns rect, Some styles =>
      ret (Resolves (mkResult true "cpu" (CpuGeometry (Some rect) styles) el), self)
  end.

Definition count_gpu (self : t) : t :=
  let m := metrics self in
  mk (throttleRate self) (geometry self) (gpuProcessor self) (workerManager self)
     (mkMetrics (processedElements m) (avgProcessTime m) (gpuAccelerated m + 1)
                (workerProcessed m)).

Definition count_worker (self : t) : t :=
  let m := metrics self in
  mk (throttleRate self) (geometry self) (gpuProcessor self) (workerManager self)
     (mkMetrics (processedElements m) (avgProcessTime m) (gpuAccelerated m)
                (workerProcessed m + 1)).

(** [processWithGPU(element, config)], called with the processor that
    [safeRegisterElement] found. *)
Definition processWithGPU (gpu : GPUProcessor) (el : Element) (self : t)
  : M (Completion ProcessResult * t) :=
  emit (EvRun "gpu") ;;;
  geometries <- processGeometry gpu [el] ;;
  match geometries with
  | Some geometries =>
      ret (Resolves (mkResult true "gpu" (default NoData (head geometries)) el),
           count_gpu self)
  | None =>
      (* Fallback to CPU *)
      processWithCPU el self
  end.

(** [processWithWorker(element, config)]; [serializeElement] calls
    [getBoundingClientRect()] inside the [try] block and passes on
    whatever it returns. *)
Definition processWithWorker (host : Host) (el : Element) (self : t)
  : M (Completion ProcessResult * t) :=
  emit (EvRun "worker") ;;;
  measured <- measure el ;;
  match measured with
  | Throws =>
      (* Worker processing failed, falling back to CPU *)
      processWithCPU el self
  | _ =>
      match processInWorker host with
      | Resolves result =>
          ret (Resolves (mkResult true "worker" (WorkerData result) el),
               count_worker self)
      | Rejects _ =>
          (* Worker processing failed, falling back to CPU *)
          processWithCPU el self
      | Pending => ret (Pending, self)
      end
  end.

(** [isCacheValid(cachedData, maxAge = 5000)] *)
Definition isCacheValid (cachedData : CachedData) : M bool :=
  if timestamp cachedData =? 0 then ret false
  else now <- Date_now ;; ret (now - timestamp cachedData <? 5000).

(** [updateMetrics(processTime, method)] *)
Definition updateMetrics (processTime : Q) (self : t) : t :=
  let m := metrics self in
  mk (throttleRate self) (geometry self) (gpuProcessor self) (workerManager self)
     (mkMetrics (processedElements m + 1) ((avgProcessTime m + processTime) / 2)%Q
                (gpuAccelerated m) (workerProcessed m)).

(** What [safeRegisterElement] resolves with. *)
Inductive Registered :=
| FromCache (cachedData : CachedData)
| Processed (result : ProcessResult).

(** The [if] / [else if] / [else] of [safeRegisterElement] that picks
    the backend; [this.gpuProcessor?.isSupported] is falsy when there is
    no processor, and [config.enableGPU !== false] holds unless the
    property is exactly [false]. *)
Definition dispatch (host : Host) (el : Element) (config : ElementConfig)
    (self : t) : M (Completion ProcessResult * t) :=
  let worker_or_cpu :=
    match workerManager self with
    | Some wm =>
        if workers_isSupported wm
           && negb (bool_decide (enableWorkers config = Some false))
        then processWithWorker host el self
        else processWithCPU el self
    | None => processWithCPU el self
    end in
  match gpuProcessor self with
  | Some gpu =>
      if gpu_isSupported gpu && negb (bool_decide (enableGPU config = Some false))
      then processWithGPU gpu el self
      else worker_or_cpu
  | None => worker_or_cpu
  end.

(** [safeRegisterElement(element, config)] *)
Definition safeRegisterElement (host : Host) (el : Element)
    (config : ElementConfig) (self : t) : M (Completion Registered * t) :=
  if nodeType el =? 0 then
    ret (Rejects (mkError "Error" "Invalid element provided"), self)
  else
    startTime <- performance_now ;;
    let (cachedData, cache) :=
      WeakRefCache.get (alive host) (identity el) (geometry self) in
    let self := mk (throttleRate self) cache (gpuProcessor self)
                   (workerManager self) (metrics self) in
    valid <- match cachedData with
             | Some c => isCacheValid c
             | None => ret false
             end ;;
    match cachedData, valid with
    | Some c, true =>
        let m := metrics self in
        ret (Resolves (FromCache c),
             mk (throttleRate self) (geometry self) (gpuProcessor self)
                (workerManager self)
                (mkMetrics (processedElements m + 1) (avgProcessTime m)
                           (gpuAccelerated m) (workerProcessed m)))
    | _, _ =>
        r <- dispatch host el config self ;;
        let (settled, self) := r in
        match settled with
        | Resolves result =>
            now <- Date_now ;;
            let self := mk (throttleRate self)
                           (WeakRefCache.set (identity el)
                              (mkCached result now config) (geometry self))
                           (gpuProcessor self) (workerManager self)
                           (metrics self) in
            endTime <- performance_now ;;
            ret (Resolves (Processed result),
                 updateMetrics (endTime - startTime)%Q self)
        | Rejects error => ret (Rejects error, self)
        | Pending => ret (Pending, self)
        end
    end.

(** [shouldProcessResize()] *)
Definition shouldProcessResize (self : t) : M bool :=
  r <- Math_random ;;
  ret (Qgtb r (throttleRate self)).

(** The strategy the specification selects: the first of the ranked list
    GPU, worker, CPU that is available for this element. *)
Definition gpu_available (config : ElementConfig) (self : t) : bool :=
  match gpuProcessor self with
  | Some gpu => gpu_isSupported gpu && negb (bool_decide (enableGPU config = Some false))
  | None => false
  end.

Definition worker_available (config : ElementConfig) (self : t) : bool :=
  match workerManager self with
  | Some wm => workers_isSupported wm
               && negb (bool_decide (enableWorkers config = Some false))
  | None => false
  end.

Definition selected (config : ElementConfig) (self : t) : string :=
  if gpu_available config self then "gpu"
  else if worker_available config self then "worker"
  else "cpu".

(** The backends a stretch of the log shows to have run, in order. *)
Definition backends (l : list Event) : list string :=
  omap (fun e => match e with EvRun method => Some method | _ => None end) l.

(** The call [r] of [dispatch] in the world [w] fell back to the CPU
    backend after one run of the backend [sel]: it continued as
    [processWithCPU] does once [sel] is logged and the rectangle has been
    read once; the log shows [sel] and then ["cpu"]; the receiver is
    unchanged; and the promise resolves with [method: 'cpu'] and what the
    next reading of the rectangle returns, or stays pending when that
    reading or [getComputedStyle] throws. *)
Definition falls_back (sel : string) (el : Element) (self : t) (w : World)
    (r : Completion ProcessResult * t * World) : Prop :=
  let next := getBoundingClientRect el (S (measurements (identity el) (log w))) in
  r = processWithCPU el self
        (logged (EvMeasure (identity el)) (logged (EvRun sel) w))
  /\ backends (log r.2) = backends (log w) ++ [sel; "cpu"]
  /\ r.1.2 = self
  /\ (forall (rect : Rect) (styles : Styles),
        next = Returns rect -> getComputedStyle el = Some styles ->
        r.1.1 = Resolves (mkResult true "cpu" (CpuGeometry (Some rect) styles) el))
  /\ (forall styles : Styles,
        next = ReturnsNothing -> getComputedStyle el = Some styles ->
        r.1.1 = Resolves (mkResult true "cpu" (CpuGeometry None styles) el))
  /\ (next = Throws \/ getComputedStyle el = None -> r.1.1 = Pending).

End UltraStableResizeSystemV2.

(* ===================================================================== *)
(** * [src/stability/CircuitBreaker.js]: metrics                          *)
(* ===================================================================== *)

Module CircuitBreakerMetrics.
Import CircuitBreaker.

(** [calculateFailureRate()]; the callback of [filter] reads the clock once
    per record.  The quotient is the rational one: it stands for the
    double one whenever [failureThreshold] is not zero. *)
Definition calculateFailureRate (self : t) : M Q :=
  match failureHistory self with
  | [] => ret 0%Q
  | _ =>
      recentFailures <-
        SmartCircuitBreaker.filterM
          (fun failure => now <- Date_now ;;
                          ret (now - timestamp failure <=? monitoringWindow (config self)))
          (failureHistory self) ;;
      ret (inject_Z (Z.of_nat (length recentFailures))
           / inject_Z (failureThreshold (config self)))%Q
  end.

Record Metrics := mkMetrics {
  metrics_state : State;
  metrics_failureCount : Z;
  metrics_successCount : Z;
  failureRate : Q;
  metrics_lastFailureTime : option Z;
  isHealthy : bool
}.

(** [getMetrics()] *)
Definition getMetrics (self : t) : M Metrics :=
  rate <- calculateFailureRate self ;;
  ret (mkMetrics (state self) (failureCount self) (successCount self) rate
                 (lastFailureTime self)
                 (match state self with CLOSED => true | _ => false end)).

(** An operation every invocation of which resolves. *)
Definition always_succeeds (operation : Operation) : Prop :=
  forall n, exists v, operation n = Resolves v.

(** Calls whose operations all resolve, and promises that all resolve. *)
Definition all_succeed (calls : list (Operation * Fallback)) : Prop :=
  Forall (fun call => always_succeeds call.1) calls.

Definition all_resolve (rs : list (Completion Value)) : Prop :=
  Forall (fun r => exists v, r = Resolves v) rs.

(** What every reachable breaker satisfies besides [tripped]: with a
    threshold of at least one a closed circuit has fewer counted failures
    than the threshold; the history is no longer than the count; and an
    open circuit has no counted success. *)
Definition consistent (self : t) : Prop :=
  (1 <= failureThreshold (config self) -> state self = CLOSED ->
   failureCount self < failureThreshold (config self))
  /\ Z.of_nat (length (failureHistory self)) <= failureCount self
  /\ (state self = OPEN -> successCount self = 0).

End CircuitBreakerMetrics.

(* ===================================================================== *)
(** * Sample inputs                                                       *)
(* ===================================================================== *)

Module Samples.

(** [() => Promise.reject(new Error('Failure'))] *)
Definition failingOperation : Operation :=
  fun _ => Rejects (mkError "Error" "Failure").

(** [() => Promise.resolve('fallback')] *)
Definition fallback : CircuitBreaker.Fallback :=
  CircuitBreaker.FallbackFunction (Resolves (Str "fallback")).

(** [new CircuitBreaker({ failureThreshold: 3, recoveryTimeout: 1000 })] *)
Definition breaker3 : CircuitBreaker.t :=
  CircuitBreaker.new (CircuitBreaker.mkConfig 3 1000 60000 3).

(** A clock that starts at [1000] and advances by one millisecond at
    every reading. *)
Definition world0 : World := ticking 1000 1 0.

(** An operation that is cancelled in flight: its promise rejects with
    the [AbortError] that [AbortController.abort()] produces. *)
Definition abortError : Error :=
  mkError "DOMException" "The operation was aborted.".
Definition cancelledOperation : Operation := fun _ => Rejects abortError.

(** [new SmartCircuitBreaker({ failureThreshold: 1 })] and
    [new SmartCircuitBreaker({ failureThreshold: 2 })] *)
Definition smart1 : SmartCircuitBreaker.t :=
  SmartCircuitBreaker.new (SmartCircuitBreaker.mkConfig 1 5000 60000 3 true).
Definition smart2 : SmartCircuitBreaker.t :=
  SmartCircuitBreaker.new (SmartCircuitBreaker.mkConfig 2 5000 60000 3 true).

(** [new ErrorRecoverySystem({ maxRetryAttempts: 2 })] and
    [jest.fn().mockRejectedValue(new Error('Persistent failure'))] *)
Definition recovery2 : ErrorRecoverySystem.t :=
  ErrorRecoverySystem.new (ErrorRecoverySystem.mkConfig 2 1000 2 10000 true).
Definition alwaysFailingOperation : Operation :=
  fun _ => Rejects (mkError "Error" "Persistent failure").

(** [new ErrorRecoverySystem({ maxRetryAttempts: 0 })] *)
Definition recovery0 : ErrorRecoverySystem.t :=
  ErrorRecoverySystem.new (ErrorRecoverySystem.mkConfig 0 1000 2 10000 true).

(** An operation that throws a [TypeError] on its first two invocations
    and resolves from the third on. *)
Definition failsTwice : Operation :=
  fun n => match n with
           | O | S O => Rejects (mkError "TypeError" "x is not a function")
           | _ => Resolves (Str "success")
           end.

(** [new ErrorRecoverySystem({ retryDelay: 100, backoffMultiplier: 2 })] *)
Definition recovery100 : ErrorRecoverySystem.t :=
  ErrorRecoverySystem.new (ErrorRecoverySystem.mkConfig 3 100 2 10000 true).

(** A cache of capacity two, keyed by numbers, after [set(1, "a")] and
    [set(2, "b")]. *)
Definition full_cache : WeakRefCache.t nat string :=
  WeakRefCache.run [WeakRefCache.OpSet 1%nat "a"; WeakRefCache.OpSet 2%nat "b"]
                   (WeakRefCache.new 2).

(** A system without a GPU processor whose worker manager is supported,
    an element with a bounding rectangle, and a worker that times out. *)
Definition workerSystem : UltraStableResizeSystemV2.t :=
  UltraStableResizeSystemV2.mk 0.98 (WeakRefCache.new 1000) None
    (Some (UltraStableResizeSystemV2.mkWorkers true))
    (UltraStableResizeSystemV2.mkMetrics 0 0 0 0).
Definition inFlow : UltraStableResizeSystemV2.Styles :=
  UltraStableResizeSystemV2.mkStyles "block" "visible" "static".
Definition box : UltraStableResizeSystemV2.Element :=
  UltraStableResizeSystemV2.mkElement 1 1
    (fun _ => UltraStableResizeSystemV2.Returns
                (UltraStableResizeSystemV2.mkRect 0 0 100 50))
    (Some inFlow).
Definition workerTimesOut : UltraStableResizeSystemV2.Host :=
  UltraStableResizeSystemV2.mkHost (Rejects (mkError "Error" "Worker timeout"))
                                   (fun _ => true).
Definition noConfig : UltraStableResizeSystemV2.ElementConfig :=
  UltraStableResizeSystemV2.mkElementConfig None None.

(** An element whose first [getBoundingClientRect()] throws and whose
    later ones return its rectangle. *)
Definition detached : UltraStableResizeSystemV2.Element :=
  UltraStableResizeSystemV2.mkElement 2 1
    (fun n => match n with
              | O => UltraStableResizeSystemV2.Throws
              | S _ => UltraStableResizeSystemV2.Returns
                         (UltraStableResizeSystemV2.mkRect 0 0 100 50)
              end)
    (Some inFlow).

(** A resize system that never throttles ([throttleRate: 0]) and a random
    source that draws [r]. *)
Definition unthrottled : UltraStableResizeSystemV2.t :=
  UltraStableResizeSystemV2.mk 0 (WeakRefCache.new 1000) None None
    (UltraStableResizeSystemV2.mkMetrics 0 0 0 0).
Definition drawing (r : Q) : World := ticking 1000 1 r.

(** [new PerformanceOptimizer({ throttleRate: 0.5, adaptiveThrottling:
    false })] and [new PerformanceOptimizer({ throttleRate: 0,
    adaptiveThrottling: false })], on a device without hints, at time
    [0]. *)
Definition halfThrottled : PerformanceOptimizer.t :=
  PerformanceOptimizer.new (PerformanceOptimizer.mkConfig 0.5 16 false) None None 0.
Definition frameUnthrottled : PerformanceOptimizer.t :=
  PerformanceOptimizer.new (PerformanceOptimizer.mkConfig 0 16 false) None None 0.

(** [new PerformanceOptimizer({ throttleRate: 0.5 })] after eleven frames
    that took [4.8] ms each. *)
Definition afterElevenFrames : PerformanceOptimizer.t :=
  PerformanceOptimizer.mk (PerformanceOptimizer.mkConfig 0.5 16 true) 0
    (repeat 4.8%float 11) 1 (PerformanceOptimizer.mkMonitor 0 0 60).

(** [() => Promise.resolve('success')] *)
Definition succeeds : Operation := fun _ => Resolves (Str "success").

(** [breaker3] after one failed call. *)
Definition one_failure :=
  CircuitBreaker.execute failingOperation fallback breaker3 world0.

(** A clock that reads [1000] at every reading. *)
Definition frozen : World := ticking 1000 0 0.

(** Two failures at time [0] open [smart2]; the third call is made at
    time [100000], after both the recovery timeout and the monitoring
    window have passed, and its operation fails too. *)
Definition idle_then_probe : World := stepping 7 0 100000.

Definition after_two_failures :=
  let r1 := SmartCircuitBreaker.execute failingOperation tt smart2 idle_then_probe in
  SmartCircuitBreaker.execute failingOperation tt r1.1.2 r1.2.

Definition after_failed_probe :=
  SmartCircuitBreaker.execute failingOperation tt
    after_two_failures.1.2 after_two_failures.2.

(** [new CircuitBreaker({ failureThreshold: 1, recoveryTimeout: 0,
    successThreshold: 2 })]: one failure opens it, the next call probes
    it, and a successful probe leaves it half-open. *)
Definition breaker1 : CircuitBreaker.t :=
  CircuitBreaker.new (CircuitBreaker.mkConfig 1 0 60000 2).

Definition failsOnce : Operation :=
  fun n => match n with
           | O => Rejects (mkError "Error" "Failure")
           | S _ => Resolves (Str "success")
           end.

(** A [SmartCircuitBreaker] with a threshold of two that is being
    probed and has no failure left in its history. *)
Definition smart_half_open : SmartCircuitBreaker.t :=
  SmartCircuitBreaker.mk (SmartCircuitBreaker.mkConfig 2 5000 60000 3 true)
                         SmartCircuitBreaker.HALF_OPEN [] [] ∅.

Definition opened_breaker :=
  CircuitBreaker.execute failsOnce fallback breaker1 world0.

Definition half_open_breaker :=
  CircuitBreaker.execute failsOnce fallback opened_breaker.1.2 opened_breaker.2.

End Samples.

(* ===================================================================== *)
(** * Properties                                                          *)
(* ===================================================================== *)

(** ** The runtime *)

Module RuntimeFacts.

Lemma triple_eta {A B C} (p : A * B * C) : p = (p.1.1, p.1.2, p.2).
Proof. by destruct p as [[? ?] ?]. Qed.

Lemma invocations_app (l l' : list Event) :
  invocations (l ++ l') = (invocations l + invocations l')%nat.
Proof. induction l as [|e l IH]; cbn; [done | rewrite IH; lia]. Qed.

Lemma invocations_operation (l : list Event) :
  invocations (l ++ [EvOperation]) = S (invocations l).
Proof. rewrite invocations_app. cbn. lia. Qed.

Lemma invocations_other (l : list Event) (e : Event) :
  is_operation e = false -> invocations (l ++ [e]) = invocations l.
Proof. intros He. rewrite invocations_app. cbn. rewrite He. lia. Qed.

End RuntimeFacts.

(** Unfolds the monad and the primitive effects. *)
Ltac run_monad :=
  unfold bind, ret, Date_now, performance_now, Math_random, sleep, emit, invoke
    in *; cbn in *.


(** ** [CircuitBreaker] *)

Module CircuitBreakerFacts.
Import RuntimeFacts CircuitBreaker.

Lemma executeFallback_spec (fallback : Fallback) (w : World) :
  (executeFallback fallback w).1 = fallback_result fallback
  /\ invocations (log (executeFallback fallback w).2) = invocations (log w)
  /\ clock (executeFallback fallback w).2 = clock w
  /\ reads (executeFallback fallback w).2 = reads w.
Proof.
  destruct fallback; run_monad; repeat split; try done.
  by apply invocations_other.
Qed.

(** One failure: the count goes up by one, the time of the failure is
    remembered, and the circuit opens exactly when the count has reached
    the threshold. *)
Lemma onFailure_spec (err : Error) (self self' : t) (w w' : World) :
  onFailure err self w = (self', w') ->
  config self' = config self
  /\ failureCount self' = failureCount self + 1
  /\ lastFailureTime self' = Some (clock w (reads w))
  /\ state self' = (if failureThreshold (config self) <=? failureCount self + 1
                    then OPEN else state self)
  /\ w' = ticked (ticked (ticked w)).
Proof.
  unfold onFailure, cleanFailureHistory, shouldOpenCircuit, openCircuit.
  run_monad. intros [= <- <-]. by destruct (_ <=? _).
Qed.

Lemma attempt_rejects (operation : Operation) (fallback : Fallback)
    (self : t) (w : World) (e : Error) :
  operation (invocations (log w)) = Rejects e ->
  attempt operation fallback self w =
    let r1 := onFailure e self (logged EvOperation w) in
    let r2 := executeFallback fallback r1.2 in
    ((r2.1, r1.1), r2.2).
Proof.
  intros He. unfold attempt, bind at 1, invoke. rewrite He.
  unfold bind, ret. destruct (onFailure _ _ _) as [b1 w1]. cbn.
  by destruct (executeFallback _ _).
Qed.

(** An attempt whose operation rejects: one invocation, one more counted
    failure, and an open circuit if the count has reached the
    threshold. *)
Lemma attempt_failing (operation : Operation) (fallback : Fallback)
    (self self' : t) (w w' : World) (r : Completion Value) :
  always_fails operation ->
  attempt operation fallback self w = (r, self', w') ->
  clock w' = clock w
  /\ invocations (log w') = S (invocations (log w))
  /\ config self' = config self
  /\ failureCount self' = failureCount self + 1
  /\ (failureThreshold (config self) <= failureCount self + 1 -> state self' = OPEN).
Proof.
  intros Hfails. destruct (Hfails (invocations (log w))) as [e He].
  rewrite (attempt_rejects operation fallback self w e He). cbv zeta.
  destruct (onFailure e self (logged EvOperation w)) as [b1 w1] eqn:Hfail.
  apply onFailure_spec in Hfail as (Hc & Hn & _ & Hs & ->).
  pose proof (executeFallback_spec fallback (ticked (ticked (ticked (logged EvOperation w)))))
    as (_ & Hi & Hk & _).
  cbn. intros [= <- <- <-]. rewrite Hi, Hk. cbn. rewrite invocations_operation.
  repeat split; try done.
  intros Hle. rewrite Hs.
  by destruct (Z.leb_spec (failureThreshold (config self)) (failureCount self + 1));
    [|lia].
Qed.

(** [execute] on an open circuit whose recovery timeout has not elapsed:
    the result is the fallback's, the operation is not invoked, the
    breaker is as it was. *)
Lemma execute_short_circuit (operation : Operation) (fallback : Fallback)
    (self : t) (w : World) :
  state self = OPEN ->
  clock w (reads w) - to_number (lastFailureTime self) < recoveryTimeout (config self) ->
  execute operation fallback self w =
    ((fallback_result fallback, self), (executeFallback fallback (ticked w)).2).
Proof.
  intros Hopen Hearly. unfold execute, shouldAttemptRecovery. rewrite Hopen.
  run_monad.
  destruct (Z.leb_spec (recoveryTimeout (config self))
              (clock w (reads w) - to_number (lastFailureTime self))) as [?|_];
    [lia|].
  by destruct fallback.
Qed.

(** [execute] with an operation that fails: either the call is
    short-circuited and nothing changes, or the operation is invoked once
    and the failure is counted. *)
Lemma execute_failing (operation : Operation) (fallback : Fallback)
    (self self' : t) (w w' : World) (r : Completion Value) :
  always_fails operation ->
  execute operation fallback self w = (r, self', w') ->
  clock w' = clock w
  /\ ((invocations (log w') = invocations (log w) /\ self' = self)
      \/ (invocations (log w') = S (invocations (log w))
          /\ config self' = config self
          /\ failureCount self' = failureCount self + 1
          /\ (failureThreshold (config self) <= failureCount self + 1 ->
              state self' = OPEN))).
Proof.
  intros Hfails. unfold execute.
  destruct (state self) eqn:Hstate;
    try (intros Ha; apply attempt_failing in Ha as (? & ? & ? & ? & ?);
         [split; [done|right; done] | done]).
  unfold shouldAttemptRecovery. unfold bind at 1, Date_now at 1.
  unfold bind at 1, ret at 1.
  destruct (_ <=? _).
  - intros Ha; apply attempt_failing in Ha as (? & ? & ? & ? & ?); [|done].
    cbn in *. split; [done|right; done].
  - pose proof (executeFallback_spec fallback (ticked w)) as (_ & Hi & Hk & _).
    unfold bind, ret. destruct (executeFallback fallback (ticked w)) as [r0 w2].
    cbn in *. intros [= <- <- <-]. split; [done|left; done].
Qed.

Lemma run_cons (operation : Operation) (fallback : Fallback)
    (calls : list (Operation * Fallback)) (self : t) (w : World) :
  run ((operation, fallback) :: calls) self w =
    let r := execute operation fallback self w in
    let rs := run calls r.1.2 r.2 in
    ((r.1.1 :: rs.1.1, rs.1.2), rs.2).
Proof.
  cbn. unfold bind, ret.
  destruct (execute operation fallback self w) as [[r b] w1]. cbn.
  by destruct (run calls b w1) as [[rs b'] w2].
Qed.

(** A run of calls whose operations all fail: the failure count grows by
    the number of attempts made; with no attempt the breaker is
    untouched, and after at least one attempt the circuit is open as soon
    as the count has reached the threshold. *)
Lemma run_failing (calls : list (Operation * Fallback)) :
  forall (self self' : t) (w w' : World) (rs : list (Completion Value)),
  Forall (fun c => always_fails c.1) calls ->
  run calls self w = (rs, self', w') ->
  exists k : nat,
    invocations (log w') = (invocations (log w) + k)%nat
    /\ clock w' = clock w
    /\ config self' = config self
    /\ failureCount self' = failureCount self + Z.of_nat k
    /\ (k = 0%nat -> self' = self)
    /\ ((1 <= k)%nat ->
        failureThreshold (config self) <= failureCount self + Z.of_nat k ->
        state self' = OPEN).
Proof.
  induction calls as [|[operation fallback] calls IH];
    intros self self' w w' rs Hall.
  - cbn. unfold ret. intros [= <- <- <-]. exists 0%nat.
    repeat split; try done; lia.
  - apply Forall_cons in Hall as [Hop Hall]. rewrite run_cons. cbv zeta.
    destruct (execute operation fallback self w) as [[r b] w1] eqn:Hexec.
    cbn [fst snd].
    destruct (run calls b w1) as [[rs' b'] w2] eqn:Hrun. cbn [fst snd].
    intros [= <- <- <-].
    apply execute_failing in Hexec as [Hk1 Hstep]; [|done].
    apply IH in Hrun as (k & Hinv & Hk2 & Hc & Hn & Hsame & Hopen); [|done].
    destruct Hstep as [[Hi ->] | (Hi & Hc1 & Hn1 & Hopen1)].
    + exists k. rewrite Hinv, Hi, Hk2, Hk1. done.
    + exists (S k). rewrite Hinv, Hi, Hk2, Hk1, Hc, Hc1, Hn, Hn1.
      rewrite Hc1, Hn1 in Hopen.
      repeat split; try done; try lia.
      intros _ Hle. destruct k as [|k].
      * rewrite (Hsame eq_refl). apply Hopen1. lia.
      * apply Hopen; lia.
Qed.

(** While the circuit is open and the recovery timeout has not elapsed,
    every call returns its fallback's result and the operation is not
    invoked. *)
Lemma run_short_circuit (calls : list (Operation * Fallback)) :
  forall (self : t) (w : World),
  state self = OPEN ->
  (forall i : nat, (i < length calls)%nat ->
     clock w (reads w + i)%nat - to_number (lastFailureTime self)
     < recoveryTimeout (config self)) ->
  exists w' : World,
    run calls self w = (map (fun c => fallback_result c.2) calls, self, w')
    /\ invocations (log w') = invocations (log w).
Proof.
  induction calls as [|[operation fallback] calls IH]; intros self w Hopen Hearly.
  - exists w. done.
  - rewrite run_cons.
    rewrite execute_short_circuit; [|done|].
    2: { specialize (Hearly 0%nat). rewrite Nat.add_0_r in Hearly.
         apply Hearly. cbn. lia. }
    pose proof (executeFallback_spec fallback (ticked w)) as (_ & Hi & Hk & Hr).
    cbv zeta. cbn [fst snd].
    destruct (IH self (executeFallback fallback (ticked w)).2 Hopen)
      as (w' & -> & Hinv).
    { intros i Hlt. rewrite Hk, Hr. cbn.
      replace (S (reads w + i)) with (reads w + S i)%nat by lia.
      apply Hearly. cbn. lia. }
    exists w'. split; [done|]. by rewrite Hinv, Hi.
Qed.

(** *** Reachable breakers *)

Lemma new_tripped (options : Config) : tripped (new options).
Proof. by intros H. Qed.

Lemma onSuccess_tripped (self : t) : tripped self -> tripped (onSuccess self).
Proof.
  unfold tripped, onSuccess, reset. cbn. intros Hinv.
  destruct (state self) eqn:Hs; cbn; rewrite ?Hs; try done.
  destruct (_ <=? _); cbn; [done | auto].
Qed.

Lemma onFailure_tripped (err : Error) (self self' : t) (w w' : World) :
  onFailure err self w = (self', w') -> tripped self -> tripped self'.
Proof.
  intros Hfail Hinv. apply onFailure_spec in Hfail as (Hc & Hn & _ & Hs & _).
  unfold tripped. rewrite Hc, Hn, Hs.
  destruct (Z.leb_spec (failureThreshold (config self)) (failureCount self + 1));
    [done|].
  intros Hne. specialize (Hinv Hne). lia.
Qed.

Lemma attempt_tripped (operation : Operation) (fallback : Fallback)
    (self self' : t) (w w' : World) (r : Completion Value) :
  attempt operation fallback self w = (r, self', w') ->
  tripped self -> tripped self'.
Proof.
  unfold attempt, bind at 1, invoke.
  destruct (operation (invocations (log w))) as [v|e|].
  - unfold ret. intros [= <- <- <-]. apply onSuccess_tripped.
  - unfold bind at 1.
    destruct (onFailure e self (logged EvOperation w)) as [b1 w1] eqn:Hfail.
    unfold bind, ret. destruct (executeFallback fallback w1) as [r0 w2].
    intros [= <- <- <-]. by eapply onFailure_tripped.
  - unfold ret. by intros [= <- <- <-].
Qed.

(** Every call of [execute] keeps the breaker reachable in the sense of
    [tripped], whatever the operation does. *)
Lemma execute_tripped (operation : Operation) (fallback : Fallback)
    (self self' : t) (w w' : World) (r : Completion Value) :
  execute operation fallback self w = (r, self', w') ->
  tripped self -> tripped self'.
Proof.
  unfold execute. destruct (state self) eqn:Hs; try by apply attempt_tripped.
  unfold shouldAttemptRecovery, bind at 1, Date_now at 1.
  unfold bind at 1, ret at 1. destruct (_ <=? _).
  - intros Ha Hinv. eapply attempt_tripped; [done|].
    intros _. cbn. apply Hinv. by rewrite Hs.
  - unfold bind, ret. destruct (executeFallback fallback (ticked w)).
    by intros [= <- <- <-].
Qed.

(** A failure of the probe: a reachable half-open breaker goes back to
    [OPEN], and the time that gates the next recovery attempt is the time
    of this failure. *)
Lemma probe_failure_reopens (err : Error) (self self' : t) (w w' : World) :
  tripped self -> state self = HALF_OPEN ->
  onFailure err self w = (self', w') ->
  state self' = OPEN /\ lastFailureTime self' = Some (clock w (reads w)).
Proof.
  intros Hinv Hs Hfail. apply onFailure_spec in Hfail as (_ & _ & Ht & Hs' & _).
  split; [|done]. rewrite Hs'.
  destruct (Z.leb_spec (failureThreshold (config self)) (failureCount self + 1));
    [done|].
  assert (state self <> CLOSED) as Hne by by rewrite Hs.
  specialize (Hinv Hne). lia.
Qed.

(** *** Properties of the specification *)

(** C1.  After a sequence of calls whose operations all fail, in which at
    least [failureThreshold] attempts (and at least one) were made, the
    circuit is [OPEN]; and every later call whose clock reading lies
    before [lastFailureTime + recoveryTimeout] returns the result of its
    fallback without invoking its operation, leaving the breaker as it
    is.  The failure count is not windowed, so the timestamps of the
    failures need no assumption. *)
Theorem failures_open_then_short_circuit
    (calls later : list (Operation * Fallback)) (self self' : t)
    (w w' : World) (rs : list (Completion Value)) :
  0 <= failureCount self ->
  Forall (fun c => always_fails c.1) calls ->
  run calls self w = (rs, self', w') ->
  (1 <= invocations (log w') - invocations (log w))%nat ->
  failureThreshold (config self)
    <= Z.of_nat (invocations (log w') - invocations (log w)) ->
  state self' = OPEN
  /\ ((forall i : nat, (i < length later)%nat ->
         clock w' (reads w' + i)%nat - to_number (lastFailureTime self')
         < recoveryTimeout (config self')) ->
      exists w'' : World,
        run later self' w' = (map (fun c => fallback_result c.2) later, self', w'')
        /\ invocations (log w'') = invocations (log w')).
Proof.
  intros Hpos Hall Hrun Hone Hmany.
  apply run_failing in Hrun as (k & Hinv & _ & _ & _ & _ & Hopen); [|done].
  rewrite Hinv in Hone, Hmany.
  replace (invocations (log w) + k - invocations (log w))%nat with k in * by lia.
  assert (state self' = OPEN) as Hstate by (apply Hopen; lia).
  split; [done|]. intros Hearly. by apply run_short_circuit.
Qed.

Lemma failures_open_then_short_circuit_witness :
  let calls := replicate 3 (Samples.failingOperation, Samples.fallback) in
  let r := run calls Samples.breaker3 Samples.world0 in
  state r.1.2 = OPEN
  /\ exists w'' : World,
       run calls r.1.2 r.2 = (replicate 3 (Resolves (Str "fallback")), r.1.2, w'')
       /\ invocations (log w'') = 3%nat.
Proof.
  intros calls r.
  destruct (failures_open_then_short_circuit calls calls Samples.breaker3 r.1.2
              Samples.world0 r.2 r.1.1) as [Hopen Hlater].
  - vm_compute. discriminate.
  - repeat constructor; intros n; by eexists.
  - reflexivity.
  - vm_compute. lia.
  - vm_compute. discriminate.
  - split; [exact Hopen|]. apply Hlater.
    intros i Hi. vm_compute in Hi.
    destruct i as [|[|[|i]]]; [vm_compute; reflexivity ..|lia].
Defined.

End CircuitBreakerFacts.

(** ** [SmartCircuitBreaker] *)

Module SmartCircuitBreakerFacts.
Import RuntimeFacts SmartCircuitBreaker.

Lemma filter_implied {A} (P Q : A -> Prop) `{!forall x, Decision (P x)}
    `{!forall x, Decision (Q x)} (l : list A) :
  (forall x, Q x -> P x) -> filter P (filter Q l) = filter Q l.
Proof.
  intros Himpl. induction l as [|x l IH]; [done|].
  destruct (decide (Q x)) as [Hq|Hq].
  - rewrite (filter_cons_True Q) by done.
    rewrite (filter_cons_True P) by auto. by rewrite IH.
  - by rewrite (filter_cons_False Q).
Qed.

(** The in-window filter of [shouldOpenCircuit] under a clock that stands
    still. *)
Lemma filterM_steady (window t : Z) (l : list Failure) :
  forall w : World,
  steady w (length l) t ->
  filterM (fun f => now <- Date_now ;; ret (now - timestamp f <? window)) l w
  = (filter (fun f => t - timestamp f < window) l, advance (length l) w).
Proof.
  induction l as [|f l IH]; intros w Hsteady; [done|].
  cbn [filterM]. unfold bind at 1. unfold bind at 1, Date_now at 1, ret at 1.
  unfold bind at 1. rewrite IH.
  2: { intros i Hi. cbn. replace (S (reads w + i)) with (reads w + S i)%nat by lia.
       apply Hsteady. cbn. lia. }
  unfold ret. rewrite <- (Hsteady 0%nat) by (cbn; lia). rewrite Nat.add_0_r.
  replace (advance (length l) (ticked w)) with (advance (length (f :: l)) w).
  2: { cbn [length]. unfold advance. by rewrite Nat.iter_succ_r. }
  destruct (Z.ltb_spec (clock w (reads w) - timestamp f) window).
  - by rewrite filter_cons_True.
  - rewrite filter_cons_False; [done|lia].
Qed.

Lemma steady_tail (w : World) (n : nat) (t : Z) :
  steady w (S n) t -> steady (ticked w) n t.
Proof.
  intros Hsteady i Hi. cbn.
  replace (S (reads w + i)) with (reads w + S i)%nat by lia.
  apply Hsteady. lia.
Qed.

Lemma steady_weaken (w : World) (n m : nat) (t : Z) :
  (m <= n)%nat -> steady w n t -> steady w m t.
Proof. intros Hle Hsteady i Hi. apply Hsteady. lia. Qed.

Lemma analyzeErrorPattern_spec (failure : Failure) (self : t) :
  config (analyzeErrorPattern failure self) = config self
  /\ state (analyzeErrorPattern failure self) = state self
  /\ failures (analyzeErrorPattern failure self) = failures self
  /\ successes (analyzeErrorPattern failure self) = successes self.
Proof. unfold analyzeErrorPattern. by destruct (adaptiveLearning _). Qed.

Lemma cleanupOldRecords_eq (self : t) (w : World) :
  cleanupOldRecords self w =
    (let cutoff := clock w (reads w) - monitoringWindow (config self) in
     mk (config self) (state self)
        (filter (fun f => cutoff < timestamp f) (failures self))
        (filter (fun s => cutoff < success_timestamp s) (successes self))
        (errorPatterns self),
     ticked w).
Proof. reflexivity. Qed.

Lemma shouldOpenCircuit_steady (self : t) (w : World) (t : Z) :
  steady w (length (failures self)) t ->
  shouldOpenCircuit self w =
    (failureThreshold (config self)
       <=? Z.of_nat (length (filter (fun f => t - timestamp f < monitoringWindow (config self))
                                    (failures self))),
     advance (length (failures self)) w).
Proof.
  intros Hsteady. unfold shouldOpenCircuit, bind at 1.
  by rewrite (filterM_steady _ t).
Qed.

Lemma recordFailure_eq (err : Error) (d : Q) (self : t) (w : World) :
  recordFailure err d self w =
    let failure := mkFailure (clock w (reads w)) (message err) d (constructor_name err) in
    let self1 := analyzeErrorPattern failure
                   (mk (config self) (state self) (failures self ++ [failure])
                       (successes self) (errorPatterns self)) in
    let r2 := cleanupOldRecords self1 (ticked w) in
    let r3 := shouldOpenCircuit r2.1 r2.2 in
    (if r3.1 then openCircuit r2.1 else r2.1, r3.2).
Proof.
  unfold recordFailure, bind at 1, Date_now at 1. cbv zeta.
  unfold bind at 1. destruct (cleanupOldRecords _ _) as [s2 w2].
  unfold bind, ret. cbn [fst snd]. by destruct (shouldOpenCircuit s2 w2).
Qed.

Lemma log_advance (n : nat) (w : World) : log (advance n w) = log w.
Proof. induction n; [done|]. unfold advance in *. by rewrite Nat.iter_succ. Qed.

(** [recordFailure] while the clock reads [t] throughout: the failure is
    appended, the records older than the monitoring window are dropped,
    and the circuit opens exactly when the failures that remain number
    [failureThreshold] or more; otherwise the state is left as it is. *)
Lemma recordFailure_steady (err : Error) (d : Q) (self self' : t)
    (w w' : World) (t : Z) :
  steady w (3 + length (failures self)) t ->
  recordFailure err d self w = (self', w') ->
  let kept := filter (fun f => t - monitoringWindow (config self) < timestamp f)
                     (failures self
                        ++ [mkFailure t (message err) d (constructor_name err)]) in
  config self' = config self
  /\ failures self' = kept
  /\ state self' = (if failureThreshold (config self) <=? Z.of_nat (length kept)
                    then OPEN else state self)
  /\ successes self' =
       (if failureThreshold (config self) <=? Z.of_nat (length kept)
        then []
        else filter (fun s => t - monitoringWindow (config self) < success_timestamp s)
                    (successes self))
  /\ log w' = log w.
Proof.
  intros Hsteady. rewrite recordFailure_eq.
  assert (clock w (reads w) = t) as ->.
  { rewrite <- (Hsteady 0%nat) by lia. by rewrite Nat.add_0_r. }
  set (failure := mkFailure t (message err) d (constructor_name err)).
  cbv zeta.
  pose proof (analyzeErrorPattern_spec failure
                (mk (config self) (state self) (failures self ++ [failure])
                    (successes self) (errorPatterns self)))
    as (Hc1 & Hs1 & Hf1 & Hx1).
  set (self1 := analyzeErrorPattern failure _) in *. cbn in Hc1, Hs1, Hf1, Hx1.
  rewrite cleanupOldRecords_eq. cbn [fst snd]. cbv zeta.
  assert (clock (ticked w) (reads (ticked w)) = t) as ->.
  { cbn. replace (S (reads w)) with (reads w + 1)%nat by lia. apply Hsteady. lia. }
  rewrite Hc1, Hs1, Hf1, Hx1.
  set (kept := filter _ (failures self ++ [failure])).
  rewrite (shouldOpenCircuit_steady _ _ t).
  2: { cbn [failures]. apply steady_tail, steady_tail.
       eapply steady_weaken; [|exact Hsteady].
       pose proof (length_filter
                     (fun f => t - monitoringWindow (config self) < timestamp f)
                     (failures self ++ [failure])) as Hlen.
       rewrite length_app in Hlen. cbn in Hlen. subst kept. lia. }
  cbn [fst snd failures config]. subst kept.
  rewrite (filter_implied _ _ _) by (intros x Hx; lia).
  intros [= <- <-]. rewrite log_advance.
  by destruct (_ <=? _).
Qed.

Lemma smart_attempt_rejects {C} (operation : Operation) (context : C) (self : t)
    (w : World) (e : Error) :
  operation (invocations (log w)) = Rejects e ->
  attempt operation context self w =
    let d := (perf w (S (preads w)) - perf w (preads w))%Q in
    let r := recordFailure e d self (timed (logged EvOperation (timed w))) in
    (Degraded (executeGracefulFallback context (Some e)), r.1, r.2).
Proof.
  intros He. unfold attempt, bind at 1, performance_now at 1.
  unfold bind at 1, race, bind at 1, invoke. cbn [log timed].
  rewrite He. unfold ret at 1. unfold bind at 1, performance_now at 1.
  unfold bind, ret. cbn [perf preads timed logged].
  by destruct (recordFailure _ _ _ _).
Qed.

(** An attempt whose operation rejects, under a clock that reads [now]
    throughout: the rejection is recorded as a failure whatever its kind,
    and [recordSuccess] is not reached. *)
Lemma attempt_rejects_steady {C} (operation : Operation) (context : C)
    (self self' : t) (w w' : World) (out : Outcome C) (e : Error) (now : Z) :
  operation (invocations (log w)) = Rejects e ->
  0 < monitoringWindow (config self) ->
  steady w (3 + length (failures self)) now ->
  attempt operation context self w = (out, self', w') ->
  out = Degraded (executeGracefulFallback context (Some e))
  /\ failures self' =
       filter (fun f => now - monitoringWindow (config self) < timestamp f)
              (failures self)
       ++ [mkFailure now (message e)
                     (perf w (S (preads w)) - perf w (preads w))%Q
                     (constructor_name e)]
  /\ state self' =
       (if failureThreshold (config self) <=? Z.of_nat (length (failures self'))
        then OPEN else state self)
  /\ successes self' =
       (if failureThreshold (config self) <=? Z.of_nat (length (failures self'))
        then []
        else filter (fun s => now - monitoringWindow (config self) < success_timestamp s)
                    (successes self))
  /\ invocations (log w') = S (invocations (log w)).
Proof.
  intros He Hwindow Hsteady. rewrite (smart_attempt_rejects operation context self w e He).
  cbv zeta.
  destruct (recordFailure _ _ _ _) as [b1 w1] eqn:Hrec. cbn [fst snd].
  intros [= <- <- <-].
  apply (recordFailure_steady _ _ _ _ _ _ now) in Hrec as (_ & Hf & Hs & Hx & Hl);
    [|done].
  rewrite <- Hf in Hs, Hx.
  rewrite filter_app in Hf. rewrite filter_cons_True in Hf; [|cbn; lia].
  rewrite filter_nil in Hf.
  rewrite Hl. cbn. by rewrite invocations_operation.
Qed.

(** *** Properties of the specification *)

(** C4, as the code has it.  [execute] has no cancellation outcome: an
    operation that is let through and terminates by rejecting (an
    [AbortError] as much as any other error) is handed to
    [recordFailure].  With a positive monitoring window and a clock that
    reads [now] during the call, the failure history gains a record for
    it, the circuit opens if the history then holds [failureThreshold]
    records, and otherwise the state is the one the attempt was made
    in; [recordSuccess] is not reached, no success is recorded. *)
Theorem rejection_is_recorded_as_failure {C} (operation : Operation)
    (context : C) (self self' : t) (w w' : World) (out : Outcome C)
    (e : Error) (now : Z) :
  operation (invocations (log w)) = Rejects e ->
  0 < monitoringWindow (config self) ->
  steady w (4 + length (failures self)) now ->
  execute operation context self w = (out, self', w') ->
  invocations (log w') <> invocations (log w) ->
  out = Degraded (executeGracefulFallback context (Some e))
  /\ (exists d : Q,
        failures self' =
          filter (fun f => now - monitoringWindow (config self) < timestamp f)
                 (failures self)
          ++ [mkFailure now (message e) d (constructor_name e)])
  /\ state self' =
       (if failureThreshold (config self) <=? Z.of_nat (length (failures self'))
        then OPEN else probing self)
  /\ successes self' =
       (if failureThreshold (config self) <=? Z.of_nat (length (failures self'))
        then []
        else filter (fun s => now - monitoringWindow (config self) < success_timestamp s)
                    (successes self)).
Proof.
  intros He Hwindow Hsteady.
  assert (forall b : t, config b = config self -> failures b = failures self ->
          successes b = successes self ->
          forall w0, log w0 = log w -> steady w0 (3 + length (failures self)) now ->
          attempt operation context b w0 = (out, self', w') ->
          out = Degraded (executeGracefulFallback context (Some e))
          /\ (exists d : Q,
                failures self' =
                  filter (fun f => now - monitoringWindow (config self) < timestamp f)
                         (failures self)
                  ++ [mkFailure now (message e) d (constructor_name e)])
          /\ state self' =
               (if failureThreshold (config self)
                     <=? Z.of_nat (length (failures self'))
                then OPEN else state b)
          /\ successes self' =
               (if failureThreshold (config self)
                     <=? Z.of_nat (length (failures self'))
                then []
                else filter (fun s => now - monitoringWindow (config self)
                                      < success_timestamp s)
                            (successes self))) as Hattempt.
  { intros b Hc Hf Hx w0 Hl Hs0 Ha.
    apply (attempt_rejects_steady _ _ _ _ _ _ _ e now) in Ha
      as (-> & Hf' & Hs' & Hx' & _); rewrite ?Hc, ?Hf, ?Hl; try done.
    rewrite Hc, Hf in Hf'. rewrite Hc in Hs'. rewrite Hc, Hx in Hx'. eauto. }
  unfold execute, probing.
  destruct (state self) eqn:Hstate.
  - intros Ha _. eapply (Hattempt self) in Ha; try done.
    + by rewrite Hstate in Ha.
    + eapply steady_weaken; [|done]. lia.
  - unfold shouldAttemptRecovery.
    destruct (last (failures self)) as [lastFailure|].
    + unfold bind at 1. unfold bind at 1, Date_now at 1, ret at 1.
      destruct (recoveryTimeout (config self) <=? _).
      * intros Ha _. eapply Hattempt in Ha; try done.
        by apply steady_tail.
      * unfold ret. by intros [= <- <- <-].
    + unfold bind, ret. by intros [= <- <- <-].
  - intros Ha _. eapply (Hattempt self) in Ha; try done.
    + by rewrite Hstate in Ha.
    + eapply steady_weaken; [|done]. lia.
Qed.

Lemma steady_frozen (n : nat) : steady Samples.frozen n 1000.
Proof. intros i _. cbn. lia. Qed.

Lemma rejection_is_recorded_as_failure_witness :
  let r := execute Samples.cancelledOperation tt Samples.smart1 Samples.frozen in
  r.1.1 = Degraded (executeGracefulFallback tt (Some Samples.abortError))
  /\ (exists d : Q,
        failures r.1.2 =
          [mkFailure 1000 "The operation was aborted." d "DOMException"])
  /\ state r.1.2 = OPEN
  /\ successes r.1.2 = [].
Proof.
  intros r.
  apply (rejection_is_recorded_as_failure Samples.cancelledOperation tt
           Samples.smart1 r.1.2 Samples.frozen r.2 r.1.1 Samples.abortError 1000).
  - reflexivity.
  - reflexivity.
  - apply steady_frozen.
  - reflexivity.
  - vm_compute. discriminate.
Defined.

(** C4 fails on the code: the operation is cancelled in flight, and the
    breaker, whose failure history was empty, records the cancellation as
    a failure and opens. *)
Lemma cancelled_operation_counts_as_failure :
  let r := execute Samples.cancelledOperation tt Samples.smart1 Samples.world0 in
  failures Samples.smart1 = []
  /\ failures r.1.2 = [mkFailure 1000 "The operation was aborted." 0 "DOMException"]
  /\ failures r.1.2 <> failures Samples.smart1
  /\ state Samples.smart1 = CLOSED
  /\ state r.1.2 = OPEN.
Proof. vm_compute. by repeat split. Qed.

End SmartCircuitBreakerFacts.

(** ** A failure while half-open *)

Module HalfOpenFacts.
Import RuntimeFacts.

Lemma reachable_tripped (self : CircuitBreaker.t) :
  CircuitBreaker.reachable self -> CircuitBreaker.tripped self.
Proof.
  induction 1 as [options | operation fallback self self' w w' r _ IH Hexec].
  - apply CircuitBreakerFacts.new_tripped.
  - by eapply CircuitBreakerFacts.execute_tripped.
Qed.

(** A failed attempt of a [CircuitBreaker] that is past [CLOSED]. *)
Lemma attempt_reopens (operation : Operation) (fallback : CircuitBreaker.Fallback)
    (self self' : CircuitBreaker.t) (w w' : World) (r : Completion Value)
    (e : Error) :
  CircuitBreaker.tripped self ->
  CircuitBreaker.state self = CircuitBreaker.HALF_OPEN ->
  operation (invocations (log w)) = Rejects e ->
  CircuitBreaker.attempt operation fallback self w = (r, self', w') ->
  CircuitBreaker.state self' = CircuitBreaker.OPEN
  /\ CircuitBreaker.lastFailureTime self' = Some (clock w (reads w)).
Proof.
  intros Hinv Hstate He.
  rewrite (CircuitBreakerFacts.attempt_rejects operation fallback self w e He).
  cbv zeta.
  destruct (CircuitBreaker.onFailure e self (logged EvOperation w))
    as [b1 w1] eqn:Hfail.
  cbn [fst snd]. intros [= <- <- <-].
  by apply CircuitBreakerFacts.probe_failure_reopens in Hfail.
Qed.

(** C5, as the code has it.  For the [CircuitBreaker], whose failure
    count is not windowed, a failed attempt of a reachable half-open
    breaker (one found [HALF_OPEN], or one found [OPEN] with the recovery
    timeout elapsed and probed) sets the state to [OPEN] and
    [lastFailureTime] to the clock reading taken for that failure.  For
    the [SmartCircuitBreaker], with a positive monitoring window and a
    clock that reads [now] during the call, a failed attempt in
    [HALF_OPEN] appends the failure, whose timestamp [now] is the one
    [shouldAttemptRecovery] compares with from then on, and the circuit
    goes back to [OPEN] exactly when the failures left in the window
    number [failureThreshold] or more; otherwise it stays [HALF_OPEN]. *)
Theorem half_open_failure :
  (forall (operation : Operation) (fallback : CircuitBreaker.Fallback)
          (self self' : CircuitBreaker.t) (w w' : World)
          (r : Completion Value) (e : Error),
      CircuitBreaker.reachable self ->
      CircuitBreaker.execute operation fallback self w = (r, self', w') ->
      (CircuitBreaker.state self = CircuitBreaker.HALF_OPEN ->
       operation (invocations (log w)) = Rejects e ->
       CircuitBreaker.state self' = CircuitBreaker.OPEN
       /\ CircuitBreaker.lastFailureTime self' = Some (clock w (reads w)))
      /\ (CircuitBreaker.state self = CircuitBreaker.OPEN ->
          CircuitBreaker.recoveryTimeout (CircuitBreaker.config self)
            <= clock w (reads w) - to_number (CircuitBreaker.lastFailureTime self) ->
          operation (invocations (log w)) = Rejects e ->
          CircuitBreaker.state self' = CircuitBreaker.OPEN
          /\ CircuitBreaker.lastFailureTime self' = Some (clock w (S (reads w)))))
  /\ (forall (C : Type) (operation : Operation) (context : C)
             (self self' : SmartCircuitBreaker.t) (w w' : World)
             (out : Outcome C) (e : Error) (now : Z),
      SmartCircuitBreaker.state self = SmartCircuitBreaker.HALF_OPEN ->
      operation (invocations (log w)) = Rejects e ->
      0 < SmartCircuitBreaker.monitoringWindow (SmartCircuitBreaker.config self) ->
      steady w (3 + length (SmartCircuitBreaker.failures self)) now ->
      SmartCircuitBreaker.execute operation context self w = (out, self', w') ->
      (exists lastFailure : SmartCircuitBreaker.Failure,
          last (SmartCircuitBreaker.failures self') = Some lastFailure
          /\ SmartCircuitBreaker.timestamp lastFailure = now)
      /\ SmartCircuitBreaker.state self' =
           (if SmartCircuitBreaker.failureThreshold (SmartCircuitBreaker.config self)
               <=? Z.of_nat (length (SmartCircuitBreaker.failures self'))
            then SmartCircuitBreaker.OPEN else SmartCircuitBreaker.HALF_OPEN)).
Proof.
  split.
  - intros operation fallback self self' w w' r e Hreach Hexec.
    apply reachable_tripped in Hreach. split.
    + intros Hstate He. unfold CircuitBreaker.execute in Hexec.
      rewrite Hstate in Hexec. by eapply attempt_reopens.
    + intros Hstate Hdue He. unfold CircuitBreaker.execute in Hexec.
      rewrite Hstate in Hexec.
      unfold CircuitBreaker.shouldAttemptRecovery, bind at 1, Date_now at 1 in Hexec.
      unfold bind at 1, ret at 1 in Hexec.
      destruct (Z.leb_spec
                  (CircuitBreaker.recoveryTimeout (CircuitBreaker.config self))
                  (clock w (reads w)
                   - to_number (CircuitBreaker.lastFailureTime self))); [|lia].
      eapply attempt_reopens in Hexec; try done.
      intros _. cbn. apply Hreach. by rewrite Hstate.
  - intros C operation context self self' w w' out e now Hstate He Hwindow
           Hsteady Hexec.
    unfold SmartCircuitBreaker.execute in Hexec. rewrite Hstate in Hexec.
    apply (SmartCircuitBreakerFacts.attempt_rejects_steady _ _ _ _ _ _ _ e now)
      in Hexec as (_ & Hf & Hs & _); try done.
    rewrite Hstate in Hs. split; [|done].
    eexists. rewrite Hf, last_snoc. done.
Qed.

Lemma half_open_failure_witness :
  (let r := CircuitBreaker.execute Samples.failingOperation Samples.fallback
              Samples.half_open_breaker.1.2 Samples.half_open_breaker.2 in
   CircuitBreaker.state Samples.half_open_breaker.1.2 = CircuitBreaker.HALF_OPEN
   /\ CircuitBreaker.state r.1.2 = CircuitBreaker.OPEN
   /\ CircuitBreaker.lastFailureTime r.1.2 = Some 1004)
  /\ (let r := SmartCircuitBreaker.execute Samples.failingOperation tt
                 Samples.smart_half_open Samples.frozen in
      (exists lastFailure : SmartCircuitBreaker.Failure,
          last (SmartCircuitBreaker.failures r.1.2) = Some lastFailure
          /\ SmartCircuitBreaker.timestamp lastFailure = 1000)
      /\ SmartCircuitBreaker.state r.1.2 = SmartCircuitBreaker.HALF_OPEN).
Proof.
  destruct half_open_failure as [Hplain Hsmart]. split.
  - intros r. split; [vm_compute; reflexivity|].
    destruct (Hplain Samples.failingOperation Samples.fallback
                Samples.half_open_breaker.1.2 r.1.2 Samples.half_open_breaker.2 r.2
                r.1.1 (mkError "Error" "Failure")) as [Hhalf _].
    + eapply (CircuitBreaker.reachable_execute Samples.failsOnce Samples.fallback
                Samples.opened_breaker.1.2 _ Samples.opened_breaker.2);
        [|apply triple_eta].
      eapply (CircuitBreaker.reachable_execute Samples.failsOnce Samples.fallback
                Samples.breaker1 _ Samples.world0); [|apply triple_eta].
      apply CircuitBreaker.reachable_new.
    + apply triple_eta.
    + destruct Hhalf as [Hstate Htime]; [vm_compute; reflexivity ..|].
      split; [exact Hstate|]. rewrite Htime. vm_compute. reflexivity.
  - intros r.
    destruct (Hsmart unit Samples.failingOperation tt Samples.smart_half_open
                r.1.2 Samples.frozen r.2 r.1.1
                (mkError "Error" "Failure") 1000) as [Hlast Hstate].
    + reflexivity.
    + reflexivity.
    + reflexivity.
    + apply SmartCircuitBreakerFacts.steady_frozen.
    + apply triple_eta.
    + split; [exact Hlast|]. rewrite Hstate. vm_compute. reflexivity.
Defined.

(** C5 fails on the [SmartCircuitBreaker]: two failures open the
    circuit; the next call comes after the recovery timeout and after the
    monitoring window, so the circuit is probed; the probe fails, the two
    old failures have left the window, one failure is below the threshold
    of two, and the breaker stays [HALF_OPEN]. *)
Lemma failed_probe_stays_half_open :
  SmartCircuitBreaker.state Samples.after_two_failures.1.2 = SmartCircuitBreaker.OPEN
  /\ invocations (log Samples.after_two_failures.2) = 2%nat
  /\ invocations (log Samples.after_failed_probe.2) = 3%nat
  /\ SmartCircuitBreaker.state Samples.after_failed_probe.1.2
       = SmartCircuitBreaker.HALF_OPEN
  /\ SmartCircuitBreaker.state Samples.after_failed_probe.1.2
       <> SmartCircuitBreaker.OPEN.
Proof. vm_compute. by repeat split. Qed.

End HalfOpenFacts.

(** ** [ErrorRecoverySystem] *)

Module ErrorRecoverySystemFacts.
Import RuntimeFacts ErrorRecoverySystem.

(** *** Backoff *)

Lemma Qpower_power (b : Q) (k : nat) : (b ^ Z.of_nat k == power b k)%Q.
Proof.
  induction k as [|k IH]; [reflexivity|].
  rewrite Nat2Z.inj_succ, <- Z.add_1_l.
  rewrite Qpower_plus' by lia. cbn [power]. by rewrite IH, Qpower_1_r.
Qed.

Lemma calculateBackoffDelay_mono (self : t) (n m : Z) :
  (1 <= backoffMultiplier (config self))%Q ->
  (0 <= retryDelay (config self))%Q ->
  n <= m ->
  (calculateBackoffDelay n self <= calculateBackoffDelay m self)%Q.
Proof.
  intros Hmult Hdelay Hnm. unfold calculateBackoffDelay.
  apply Q.min_le_compat_r.
  rewrite !(Qmult_comm (retryDelay (config self))).
  apply Qmult_le_compat_r; [|done].
  apply Qpower_le_compat_l; [lia|done].
Qed.

(** C6.  For an attempt number [n >= 1] the delay computed by
    [calculateBackoffDelay] is the specification's
    [min(retryDelay * backoffMultiplier^(n-1), maxBackoffDelay)]; it never
    exceeds [maxBackoffDelay]; for a multiplier of at least one (and a
    delay that is not negative) it is non-decreasing in the attempt
    number; and with [retryDelay = 100] and a multiplier of [2] the
    attempts 1, 2, 3 wait 100, 200 and 400 milliseconds. *)
Theorem backoff_delay :
  (forall (self : t) (n : nat), (1 <= n)%nat ->
      (calculateBackoffDelay (Z.of_nat n) self == backoffDelay (config self) n)%Q)
  /\ (forall (self : t) (n : Z),
        (calculateBackoffDelay n self <= maxBackoffDelay (config self))%Q)
  /\ (forall (self : t) (n m : Z),
        (1 <= backoffMultiplier (config self))%Q ->
        (0 <= retryDelay (config self))%Q ->
        1 <= n <= m ->
        (calculateBackoffDelay n self <= calculateBackoffDelay m self)%Q)
  /\ map (fun n => calculateBackoffDelay n Samples.recovery100) [1; 2; 3]
     = [100%Q; 200%Q; 400%Q].
Proof.
  split; [|split; [|split]].
  - intros self n Hn. unfold calculateBackoffDelay, backoffDelay.
    replace (Z.of_nat n - 1) with (Z.of_nat (n - 1)) by lia.
    by rewrite Qpower_power.
  - intros self n. apply Q.le_min_r.
  - intros self n m Hmult Hdelay [_ Hnm]. by apply calculateBackoffDelay_mono.
  - vm_compute. reflexivity.
Qed.

Lemma backoff_delay_witness :
  (calculateBackoffDelay 2 Samples.recovery100
   <= calculateBackoffDelay 5 Samples.recovery100)%Q
  /\ (calculateBackoffDelay 3 Samples.recovery100
      == backoffDelay (config Samples.recovery100) 3)%Q.
Proof.
  destruct backoff_delay as (Hspec & _ & Hmono & _). split.
  - apply Hmono; [vm_compute; discriminate | vm_compute; discriminate | lia].
  - apply (Hspec Samples.recovery100 3%nat). lia.
Defined.

(** *** The retry loop *)

Lemma attemptRecovery_spec (error : Error) (context : Context) (self self' : t)
    (w w' : World) (r : Completion RecoveryResult) :
  attemptRecovery error context self w = (r, self', w') ->
  config self' = config self
  /\ recoveryStrategies self' = recoveryStrategies self
  /\ invocations (log w') = invocations (log w)
  /\ (forall e, r <> Rejects e)
  /\ (strategies_settle self -> r <> Pending)
  /\ (recoveryStrategies self !! constructor_name error = None ->
      r = Resolves (mkRecovery "none" false None) /\ self' = self /\ w' = w).
Proof.
  unfold attemptRecovery.
  destruct (recoveryStrategies self !! constructor_name error) as [s|] eqn:Hs.
  - unfold bind, emit, ret.
    destruct (s error context) as [rr|e|] eqn:Hsettle; intros [= <- <- <-]; cbn;
      rewrite ?invocations_other by done; repeat split; try done.
    + by destruct (_ && _).
    + by destruct (_ && _).
    + by destruct (enableLearning _).
    + by destruct (enableLearning _).
    + intros Hsettles _. by eapply Hsettles.
  - unfold ret. intros [= <- <- <-]. by repeat split.
Qed.

Lemma strategies_settle_ext (self self' : t) :
  recoveryStrategies self' = recoveryStrategies self ->
  strategies_settle self -> strategies_settle self'.
Proof. unfold strategies_settle. by intros ->. Qed.

(** The catch block hands on to the rest of the loop or leaves it; it
    never runs out of fuel by itself. *)
Lemma catchBlock_total
    (continue : Z -> option Error -> Context -> t -> M (option LoopExit))
    (error : Error) (attempt : Z) (context : Context) (self : t) (w : World) :
  (forall (lastError : option Error) (context' : Context) (self' : t) (w' : World),
      config self' = config self ->
      (continue (attempt + 1) lastError context' self' w').1 <> None) ->
  (catchBlock continue error attempt context self w).1 <> None.
Proof.
  intros Hcontinue. unfold catchBlock.
  destruct (_ <? _); [|by apply Hcontinue].
  unfold bind at 1.
  destruct (attemptRecovery error context self w) as [[recovered self1] w1] eqn:Hrec.
  apply attemptRecovery_spec in Hrec as (Hc & _).
  destruct recovered as [recoveryResult|e|]; try done.
  destruct (recovery_success recoveryResult); [|done].
  unfold bind, sleep, emit. by apply Hcontinue.
Qed.

(** The fuel that [executeWithRecovery] gives the loop is enough: with
    [maxRetryAttempts - attempt] iterations allowed, the model of the loop
    reaches one of its exits, whatever the operation and the strategies
    do. *)
Lemma retryLoop_total (operation : Operation) (fuel : nat) :
  forall (attempt : Z) (lastError : option Error) (context : Context)
         (self : t) (w : World),
  (Z.to_nat (maxRetryAttempts (config self) - attempt) <= fuel)%nat ->
  (retryLoop fuel operation attempt lastError context self w).1 <> None.
Proof.
  induction fuel as [|fuel IH]; intros attempt lastError context self w Hfuel;
    cbn [retryLoop];
    destruct (Z.ltb_spec attempt (maxRetryAttempts (config self))); try done;
    [lia|].
  assert (forall error w1,
             (catchBlock (retryLoop fuel operation) error attempt context self w1).1
             <> None) as Hcatch.
  { intros error w1. apply catchBlock_total.
    intros lastError' context' self' w' Hc. apply IH. rewrite Hc. lia. }
  unfold bind at 1, invoke.
  destruct (operation (invocations (log w))) as [result|error|]; try done.
  destruct (0 <? attempt); [|done].
  destruct lastError as [e|]; [|done].
  unfold recordRecoverySuccess, bind, ret, Date_now. done.
Qed.

Lemma executeWithRecovery_total (operation : Operation) (context : Context)
    (self : t) (w : World) :
  (executeWithRecovery operation context self w).1 <> None.
Proof.
  unfold executeWithRecovery, bind at 1.
  pose proof (retryLoop_total operation (Z.to_nat (maxRetryAttempts (config self)))
                0 None context self w) as Htotal.
  destruct (retryLoop _ _ _ _ _ _ _) as [[exit|] w1]; cbn in Htotal.
  - destruct exit as [result context' self'|attempt lastError context' self'
                     |e context' self'|context' self']; try done.
    destruct lastError; [|done].
    unfold recordRecoveryFailure, bind, ret, Date_now. done.
  - exfalso. apply Htotal; [lia|done].
Qed.

(** [attemptRecovery] on an error whose strategy recovers: the strategy
    runs once and its result, a success, is handed back. *)
Lemma attemptRecovery_recovers (e : Error) (context : Context) (self : t)
    (w : World) :
  recovers self e ->
  exists (rr : RecoveryResult) (self1 : t),
    attemptRecovery e context self w
    = (Resolves rr, self1, logged (EvStrategy (constructor_name e)) w)
    /\ recovery_success rr = true.
Proof.
  intros (s & Hs & Hsettles). destruct (Hsettles context) as (rr & Hrr & Hok).
  unfold attemptRecovery. cbv zeta.
  destruct (recoveryStrategies self !! constructor_name e) as [s'|]; [|done].
  injection Hs as ->.
  unfold bind, emit, ret. rewrite Hrr. by eexists _, _.
Qed.

Lemma attemptRecovery_history (error : Error) (context : Context) (self self' : t)
    (w w' : World) (r : Completion RecoveryResult) :
  attemptRecovery error context self w = (r, self', w') ->
  recoveryHistory self' = recoveryHistory self.
Proof.
  unfold attemptRecovery.
  destruct (recoveryStrategies self !! constructor_name error) as [s|].
  - unfold bind, emit, ret.
    destruct (s error context) as [rr|e|]; intros [= <- <- <-]; cbn; try done.
    + by destruct (_ && _).
    + by destruct (enableLearning _).
  - unfold ret. by intros [= <- <- <-].
Qed.

Lemma recovers_ext (self self' : t) (e : Error) :
  recoveryStrategies self' = recoveryStrategies self ->
  recovers self e -> recovers self' e.
Proof. unfold recovers. by intros ->. Qed.

(** The loop on an operation that fails on every attempt the budget still
    allows.  It ends in the code after the loop, or hangs on a strategy
    that never settles; it never returns a result and lets no exception
    escape.  Each failed attempt is one invocation, the attempts do not
    exceed the budget, [lastError] is what the last invocation rejected
    with, and when every failure is recovered from the budget is used
    up. *)
Lemma retryLoop_exhausted (operation : Operation) (fuel : nat) :
  forall (attempt : Z) (lastError : option Error) (context : Context)
         (self : t) (w : World),
  0 <= attempt ->
  (Z.to_nat (maxRetryAttempts (config self) - attempt) <= fuel)%nat ->
  fails_next (Z.to_nat (maxRetryAttempts (config self) - attempt)) operation w ->
  exists (exit : LoopExit) (w' : World),
    retryLoop fuel operation attempt lastError context self w = (Some exit, w')
    /\ (invocations (log w) <= invocations (log w'))%nat
    /\ match exit with
       | Fallthrough attempt' lastError' context' self' =>
           config self' = config self
           /\ recoveryStrategies self' = recoveryStrategies self
           /\ recoveryHistory self' = recoveryHistory self
           /\ attempt' = attempt + Z.of_nat (invocations (log w') - invocations (log w))
           /\ attempt' <= Z.max attempt (maxRetryAttempts (config self))
           /\ (attempt < maxRetryAttempts (config self) ->
               (invocations (log w) < invocations (log w'))%nat
               /\ exists e, lastError' = Some e
                            /\ operation (invocations (log w') - 1)%nat = Rejects e)
           /\ (maxRetryAttempts (config self) <= attempt ->
               lastError' = lastError /\ w' = w)
           /\ (recovers_next (Z.to_nat (maxRetryAttempts (config self) - attempt))
                 operation self w ->
               attempt' = Z.max attempt (maxRetryAttempts (config self)))
       | Hang _ _ =>
           ~ strategies_settle self
           /\ (invocations (log w) < invocations (log w'))%nat
           /\ (invocations (log w') - invocations (log w)
               < Z.to_nat (maxRetryAttempts (config self) - attempt))%nat
       | Return _ _ _ | Throw _ _ _ => False
       end.
Proof.
  induction fuel as [|fuel IH];
    intros attempt lastError context self w Hattempt Hfuel Hfails.
  - exists (Fallthrough attempt lastError context self), w. cbn.
    destruct (Z.ltb_spec attempt (maxRetryAttempts (config self))); [lia|].
    split; [done|]. split; [lia|]. rewrite Nat.sub_diag.
    repeat split; try done; lia.
  - cbn [retryLoop].
    destruct (Z.ltb_spec attempt (maxRetryAttempts (config self))) as [Hlt|Hge].
    2: { exists (Fallthrough attempt lastError context self), w.
         split; [done|]. split; [lia|]. rewrite Nat.sub_diag.
         repeat split; try done; lia. }
    unfold bind at 1, invoke.
    destruct (Hfails 0%nat ltac:(lia)) as [e He].
    rewrite Nat.add_0_r in He. rewrite He. unfold catchBlock.
    assert (invocations (log (logged EvOperation w)) = S (invocations (log w)))
      as Hlog by (cbn; apply invocations_operation).
    destruct (Z.ltb_spec (attempt + 1) (maxRetryAttempts (config self)))
      as [Hlt'|Hge'].
    + unfold bind at 1.
      destruct (attemptRecovery e context self (logged EvOperation w))
        as [[recovered self1] w1] eqn:Hrec.
      pose proof (attemptRecovery_history _ _ _ _ _ _ _ Hrec) as Hh.
      pose proof Hrec as Hrec'.
      apply attemptRecovery_spec in Hrec
        as (Hc & Hstrat & Hinv & Hnot_rejects & Hnot_pending & _).
      rewrite Hlog in Hinv.
      destruct recovered as [recoveryResult|e'|]; [|by destruct (Hnot_rejects e')|].
      * destruct (recovery_success recoveryResult) eqn:Hok.
        -- unfold bind at 1, sleep, emit.
           set (context1 := match recoveredElements recoveryResult with
                            | Some els => _ | None => _ end).
           set (w2 := logged _ w1).
           assert (invocations (log w2) = S (invocations (log w))) as Hinv2.
           { subst w2. cbn. by rewrite invocations_other. }
           destruct (IH (attempt + 1) (Some e) context1 self1 w2)
             as (exit & w' & Hloop & Hmono & Hexit); [lia | rewrite Hc; lia | |].
           { intros i Hi. rewrite Hc in Hi.
             destruct (Hfails (S i) ltac:(lia)) as [e' He'].
             exists e'. rewrite Hinv2, <- He'. f_equal. lia. }
           exists exit, w'. split; [done|]. split; [lia|].
           rewrite Hc, Hstrat, Hh, Hinv2 in Hexit.
           destruct exit as [result c' s'|a' le' c' s'|e' c' s'|c' s']; try done.
           ++ destruct Hexit as (Hc' & Hs' & Hh' & Ha' & Hle & Hin & _ & Hall).
              split; [done|]. split; [done|]. split; [done|].
              split; [lia|]. split; [lia|]. split; [|split; [lia|]].
              ** intros _. destruct (Hin Hlt') as [Hmore Herr].
                 split; [lia|done].
              ** intros Hrecovers. rewrite Hall; [lia|].
                 intros i e' Hi He'. eapply recovers_ext; [done|].
                 apply (Hrecovers (S i) e'); [lia|].
                 rewrite <- He'. f_equal. lia.
           ++ destruct Hexit as (Hnot & Hmore & Hfew). split; [|lia].
              intros Hsettle. apply Hnot. by eapply strategies_settle_ext.
        -- exists (Fallthrough (attempt + 1) (Some e) context self1), w1.
           unfold ret. split; [done|]. split; [lia|].
           split; [done|]. split; [done|]. split; [done|].
           split; [lia|]. split; [lia|]. split; [|split; [lia|]].
           ** intros _. split; [lia|]. exists e. split; [done|].
              rewrite Hinv. cbn. by rewrite Nat.sub_0_r.
           ** intros Hrecovers.
              destruct (attemptRecovery_recovers e context self
                          (logged EvOperation w))
                as (rr & self2 & Heq & Hrr).
              { apply (Hrecovers 0%nat e); [lia|]. by rewrite Nat.add_0_r. }
              rewrite Heq in Hrec'. injection Hrec' as -> _ _. congruence.
      * exists (Hang context self1), w1. unfold ret.
        split; [done|]. split; [lia|]. split; [|lia].
        intros Hsettle. by apply Hnot_pending.
    + destruct (IH (attempt + 1) (Some e) context self (logged EvOperation w))
        as (exit & w' & Hloop & Hmono & Hexit); [lia | lia | |].
      { intros i Hi. lia. }
      exists exit, w'. split; [done|]. rewrite Hlog in Hmono, Hexit.
      split; [lia|].
      destruct exit as [result c' s'|a' le' c' s'|e' c' s'|c' s']; try done.
      * destruct Hexit as (Hc' & Hs' & Hh' & Ha' & Hle & _ & Hout & _).
        destruct (Hout Hge') as [-> ->]. rewrite Hlog in Ha' |- *.
        split; [done|]. split; [done|]. split; [done|].
        split; [lia|]. split; [lia|]. split; [|split; [lia|lia]].
        intros _. split; [lia|]. exists e. split; [done|].
        cbn. by rewrite Nat.sub_0_r.
      * destruct Hexit as (_ & _ & Hfew). lia.
Qed.

Lemma default_strategies_settle (options : Config) :
  strategies_settle (new options).
Proof.
  intros errorType s e c Hs.
  unfold new, registerDefaultStrategies, registerStrategy in Hs. cbn in Hs.
  repeat (rewrite lookup_insert in Hs; case_decide; [by simplify_eq|]).
  by rewrite lookup_empty in Hs.
Qed.

(** C7 on the code.  With a budget of at least one attempt and an
    operation that rejects on every attempt the budget allows,
    [executeWithRecovery] invokes the operation at least once and at most
    [maxRetryAttempts] times and does not reject: it resolves with the
    object [{ success: false, mode: 'degraded', error, fallbackActive:
    true, context }], where [error] is the message of the error that the
    last invocation rejected with, after recording one failed recovery
    with the number of attempts made; the only other outcome is a promise
    that stays pending because a registered strategy never settles.  When
    every failure is recovered from, exactly [maxRetryAttempts] attempts
    are made.  With a budget of zero or less the claim fails: the
    operation is never invoked and the code after the loop reads
    [null.constructor], so that the returned promise rejects with a
    [TypeError]. *)
Theorem exhausted_recovery_degrades (operation : Operation) (context : Context)
    (self : t) (w : World) :
  (1 <= maxRetryAttempts (config self) ->
   fails_next (Z.to_nat (maxRetryAttempts (config self))) operation w ->
   exists (r : Completion (Outcome Context)) (context' : Context) (self' : t)
          (w' : World),
     executeWithRecovery operation context self w = (Some (r, context', self'), w')
     /\ (1 <= invocations (log w') - invocations (log w)
         <= Z.to_nat (maxRetryAttempts (config self)))%nat
     /\ ((r = Pending /\ ~ strategies_settle self)
         \/ exists (e : Error) (ts : Z),
              r = Resolves (Degraded (mkDegraded false "degraded" (Some (message e))
                                                 true context'))
              /\ operation (invocations (log w') - 1)%nat = Rejects e
              /\ recoveryHistory self'
                 = recoveryHistory self
                   ++ [mkEntry (constructor_name e)
                               (Z.of_nat (invocations (log w') - invocations (log w)))
                               false ts context']
              /\ (recovers_next (Z.to_nat (maxRetryAttempts (config self)))
                    operation self w ->
                  (invocations (log w') - invocations (log w))%nat
                  = Z.to_nat (maxRetryAttempts (config self)))))
  /\ (maxRetryAttempts (config self) <= 0 ->
      executeWithRecovery operation context self w
      = (Some (Rejects (mkError "TypeError" "Cannot read properties of null"),
               context, self), w)).
Proof.
  split.
  - intros Hmax Hfails. unfold executeWithRecovery, bind at 1.
    destruct (retryLoop_exhausted operation
                (Z.to_nat (maxRetryAttempts (config self))) 0 None context self w)
      as (exit & w' & -> & Hmono & Hexit); [lia | lia | by rewrite Z.sub_0_r |].
    rewrite Z.sub_0_r in Hexit.
    destruct exit as [result c' s'|a' le' c' s'|e c' s'|c' s']; try done.
    + destruct Hexit as (Hc & Hs & Hh & Ha' & Hle & Hin & _ & Hall).
      destruct (Hin ltac:(lia)) as (Hmore & e & -> & Hlast).
      unfold recordRecoveryFailure, bind, ret, Date_now.
      eexists _, _, _, _. split; [reflexivity|]. cbn [log ticked].
      split; [lia|]. right. exists e, (clock w' (reads w')).
      split; [done|]. split; [done|]. split.
      * cbn [recoveryHistory log ticked]. by rewrite Hh, Ha', Z.add_0_l.
      * intros Hrecovers. specialize (Hall Hrecovers). lia.
    + destruct Hexit as (Hnot & Hmore & Hfew).
      exists Pending, c', s', w'. unfold ret.
      split; [done|]. split; [lia|]. by left.
  - intros Hmax. unfold executeWithRecovery, bind at 1.
    replace (Z.to_nat (maxRetryAttempts (config self))) with 0%nat by lia.
    cbn [retryLoop].
    destruct (Z.ltb_spec 0 (maxRetryAttempts (config self))); [lia|done].
Qed.

Lemma exhausted_recovery_degrades_witness :
  (exists (context' : Context) (self' : t) (w' : World),
      executeWithRecovery Samples.failsTwice emptyContext Samples.recovery2
        Samples.world0
      = (Some (Resolves (Degraded (mkDegraded false "degraded"
                                              (Some "x is not a function") true
                                              context')),
               context', self'), w')
      /\ invocations (log w') = 2%nat)
  /\ executeWithRecovery Samples.succeeds emptyContext Samples.recovery0
       Samples.world0
     = (Some (Rejects (mkError "TypeError" "Cannot read properties of null"),
              emptyContext, Samples.recovery0), Samples.world0).
Proof.
  split.
  - destruct (exhausted_recovery_degrades Samples.failsTwice emptyContext
                Samples.recovery2 Samples.world0) as [Hbudget _].
    destruct Hbudget as (r & context' & self' & w' & Heq & Hinv & Hr).
    + vm_compute. discriminate.
    + intros i Hi. change (Z.to_nat _) with 2%nat in Hi.
      exists (mkError "TypeError" "x is not a function").
      destruct i as [|[|i]]; [reflexivity | reflexivity | lia].
    + destruct Hr as [[_ Hhang] | (e & ts & -> & Hlast & _ & Hall)].
      { destruct Hhang. apply default_strategies_settle. }
      exists context', self', w'.
      assert (invocations (log w') = 2%nat) as Hcount.
      { change (invocations (log Samples.world0)) with 0%nat in Hall, Hinv.
        rewrite Nat.sub_0_r in Hall. apply Hall.
        intros i e' Hi He'. change (Z.to_nat _) with 2%nat in Hi.
        assert (e' = mkError "TypeError" "x is not a function") as ->.
        { destruct i as [|[|i]]; [| |lia]; cbn in He'; congruence. }
        eexists. split; [reflexivity|]. intros c. by eexists. }
      split; [|done]. rewrite Heq. rewrite Hcount in Hlast.
      cbn in Hlast. by injection Hlast as <-.
  - apply exhausted_recovery_degrades. vm_compute. discriminate.
Defined.

(** Without a registered strategy for the error's kind the loop is left
    after the first failed attempt, whatever the retry budget: the
    operation is invoked once, nothing is slept, and the degraded object
    is returned. *)
Lemma unregistered_failure_ends_loop (operation : Operation) (context : Context)
    (self : t) (w : World) (e : Error) :
  2 <= maxRetryAttempts (config self) ->
  operation (invocations (log w)) = Rejects e ->
  recoveryStrategies self !! constructor_name e = None ->
  exists self' : t,
    executeWithRecovery operation context self w
    = (Some (Resolves (Degraded (gracefulDegradation e context)), context, self'),
       ticked (logged EvOperation w)).
Proof.
  intros Hmax He Hnone. unfold executeWithRecovery, bind at 1.
  destruct (Z.to_nat (maxRetryAttempts (config self))) as [|fuel] eqn:Hfuel; [lia|].
  cbn [retryLoop].
  destruct (Z.ltb_spec 0 (maxRetryAttempts (config self))); [|lia].
  unfold bind at 1, invoke. rewrite He. unfold catchBlock.
  destruct (Z.ltb_spec (0 + 1) (maxRetryAttempts (config self))); [|lia].
  unfold bind at 1.
  destruct (attemptRecovery e context self (logged EvOperation w))
    as [[recovered self1] w1] eqn:Hrec.
  apply attemptRecovery_spec in Hrec as (_ & _ & _ & _ & _ & Hnone').
  destruct (Hnone' Hnone) as (-> & -> & ->). cbn [recovery_success].
  unfold ret at 1. unfold recordRecoveryFailure, bind, ret, Date_now.
  by eexists.
Qed.

(** C2 on the code, at the input of the repository's own test
    ([maxRetryAttempts: 2], an operation that always rejects with
    [new Error('Persistent failure')]): no strategy is registered for
    ["Error"], the operation is invoked once, not twice, no backoff is
    slept, and the degraded object is returned. *)
Theorem unregistered_failure_is_not_retried :
  let r := executeWithRecovery Samples.alwaysFailingOperation emptyContext
             Samples.recovery2 Samples.world0 in
  recoveryStrategies Samples.recovery2 !! "Error" = None
  /\ (fun x => x.1.1) <$> r.1
     = Some (Resolves (Degraded (mkDegraded false "degraded"
                                            (Some "Persistent failure") true
                                            emptyContext)))
  /\ log r.2 = [EvOperation]
  /\ invocations (log r.2) = 1%nat.
Proof. vm_compute. by repeat split. Qed.

End ErrorRecoverySystemFacts.

(** ** [WeakRefCache] *)

Module WeakRefCacheFacts.
Import WeakRefCache.

Section Cache.
Context {K V : Type} `{EqDecision K}.
Implicit Types (m : list (K * V)) (c : t K V).

Lemma Map_get_None key m : Map_get key m = None <-> key ∉ m.*1.
Proof.
  induction m as [|[k v] m IH]; cbn.
  - split; [intros _; apply not_elem_of_nil | done].
  - rewrite not_elem_of_cons. case_decide as Hk.
    + split; [done | by intros [? _]].
    + rewrite IH. split; [done | by intros [_ ?]].
Qed.

Lemma Map_get_Some_elem key value m :
  Map_get key m = Some value -> key ∈ m.*1.
Proof.
  intros Hget. destruct (decide (key ∈ m.*1)) as [|Hnot]; [done|].
  apply Map_get_None in Hnot. congruence.
Qed.

(** A new key goes last. *)
Lemma Map_set_absent key value m :
  key ∉ m.*1 -> Map_set key value m = m ++ [(key, value)].
Proof.
  induction m as [|[k v] m IH]; cbn; [done|].
  rewrite not_elem_of_cons. intros [Hne Hnot].
  case_decide; [congruence|]. by rewrite IH.
Qed.

(** An existing key keeps its place: the keys are unchanged. *)
Lemma Map_set_present key value m :
  key ∈ m.*1 -> (Map_set key value m).*1 = m.*1.
Proof.
  induction m as [|[k v] m IH]; cbn.
  - by intros ?%elem_of_nil.
  - intros [->|Hin]%elem_of_cons; case_decide; subst; cbn; try done.
    by rewrite IH.
Qed.

Lemma Map_get_set key value m : Map_get key (Map_set key value m) = Some value.
Proof.
  induction m as [|[k v] m IH]; cbn; [by case_decide|].
  case_decide; cbn; by case_decide.
Qed.

Lemma Map_get_set_ne key key' value m :
  key <> key' -> Map_get key' (Map_set key value m) = Map_get key' m.
Proof.
  intros Hne. induction m as [|[k v] m IH]; cbn; [by case_decide|].
  repeat (case_decide; subst; cbn); try done.
Qed.

Lemma Map_set_length key value m :
  (length (Map_set key value m) <= S (length m))%nat.
Proof.
  induction m as [|[k v] m IH]; cbn; [lia|]. case_decide; cbn; lia.
Qed.

Lemma Map_set_NoDup key value m :
  NoDup m.*1 -> NoDup (Map_set key value m).*1.
Proof.
  intros Hnodup. destruct (decide (key ∈ m.*1)) as [Hin|Hnot].
  - by rewrite Map_set_present.
  - rewrite Map_set_absent, fmap_app by done. cbn.
    apply NoDup_app. split; [done|]. split; [|apply NoDup_singleton].
    intros x Hx ->%list_elem_of_singleton. done.
Qed.

Lemma Map_delete_length key m :
  (length (Map_delete key m) <= length m)%nat.
Proof. apply length_filter. Qed.

Lemma filter_keys_NoDup (P : K * V -> Prop) `{!forall e, Decision (P e)} m :
  NoDup m.*1 -> NoDup (filter P m).*1.
Proof.
  intros Hnodup. apply (sublist_NoDup _ (m.*1)); [done|].
  apply fmap_sublist, sublist_filter.
Qed.

(** Deleting the first key of a map removes its first entry and nothing
    else. *)
Lemma Map_delete_first k v m :
  NoDup ((k, v) :: m).*1 -> Map_delete k ((k, v) :: m) = m.
Proof.
  intros Hnodup. assert (k ∉ m.*1) as Hnot.
  { rewrite fmap_cons in Hnodup. by apply NoDup_cons in Hnodup as [? _]. }
  clear Hnodup. unfold Map_delete.
  rewrite filter_cons_False by (intros Hc; by apply Hc).
  induction m as [|[k' v'] m IH]; [done|].
  rewrite fmap_cons in Hnot. apply not_elem_of_cons in Hnot as [Hne Hnot].
  rewrite filter_cons_True by (cbn; by intros ->). by rewrite IH.
Qed.

Lemma set_maxSize key value c : maxSize (set key value c) = maxSize c.
Proof.
  unfold set. destruct (_ <=? _); [|done]. by destruct (firstKey _).
Qed.

(** [set] on a full cache: the first entry is deleted, then the key is
    stored. *)
Lemma set_full key value c oldest v0 rest :
  NoDup (entries c).*1 ->
  maxSize c <= size c ->
  entries c = (oldest, v0) :: rest ->
  entries (set key value c) = Map_set key value rest.
Proof.
  intros Hnodup Hfull Hentries. unfold set.
  destruct (Z.leb_spec (maxSize c) (size c)); [|lia].
  rewrite Hentries. cbn [firstKey delete entries].
  rewrite Hentries in Hnodup |- *. by rewrite Map_delete_first.
Qed.

Lemma step_maxSize c op : maxSize (step c op) = maxSize c.
Proof.
  destruct op as [key value|alive key|key|alive|]; cbn [step]; try done.
  - apply set_maxSize.
  - unfold get. destruct (Map_get _ _); [|done]. by destruct (alive _).
Qed.

Lemma step_NoDup c op : NoDup (entries c).*1 -> NoDup (entries (step c op)).*1.
Proof.
  intros Hnodup. destruct op as [key value|alive key|key|alive|]; cbn [step].
  - unfold set. destruct (_ <=? _); [destruct (firstKey _)|]; cbn;
      apply Map_set_NoDup; try done.
    by apply filter_keys_NoDup.
  - unfold get. destruct (Map_get _ _); [|done]. destruct (alive _); [done|].
    cbn. by apply filter_keys_NoDup.
  - cbn. by apply filter_keys_NoDup.
  - cbn. by apply filter_keys_NoDup.
  - cbn. apply NoDup_nil_2.
Qed.

Lemma run_NoDup ops c : NoDup (entries c).*1 -> NoDup (entries (run ops c)).*1.
Proof.
  revert c. induction ops as [|op ops IH]; intros c Hnodup; [done|].
  change (run (op :: ops) c) with (run ops (step c op)).
  by apply IH, step_NoDup.
Qed.

Lemma run_maxSize ops c : maxSize (run ops c) = maxSize c.
Proof.
  revert c. induction ops as [|op ops IH]; intros c; [done|].
  change (run (op :: ops) c) with (run ops (step c op)).
  by rewrite IH, step_maxSize.
Qed.

(** Whatever the capacity, a cache never holds more than
    [max(maxSize, 1)] entries: [set] makes room for one entry at most and
    then stores. *)
Lemma set_size_bound key value c :
  NoDup (entries c).*1 ->
  size c <= Z.max (maxSize c) 1 ->
  size (set key value c) <= Z.max (maxSize c) 1.
Proof.
  intros Hnodup Hsize. unfold size in *.
  destruct (Z.leb_spec (maxSize c) (Z.of_nat (length (entries c)))) as [Hfull|Hroom].
  - destruct (entries c) as [|[oldest v0] rest] eqn:Hentries.
    + unfold set, size. rewrite Hentries. cbn [firstKey length].
      destruct (_ <=? _); cbn; rewrite Hentries; cbn; lia.
    + rewrite (set_full key value c oldest v0 rest); try done.
      * pose proof (Map_set_length key value rest). cbn in Hsize. lia.
      * by rewrite Hentries.
      * unfold size. by rewrite Hentries.
  - unfold set, size.
    destruct (Z.leb_spec (maxSize c) (Z.of_nat (length (entries c)))); [lia|].
    cbn. pose proof (Map_set_length key value (entries c)). lia.
Qed.

Lemma step_size_bound c op :
  NoDup (entries c).*1 ->
  size c <= Z.max (maxSize c) 1 ->
  size (step c op) <= Z.max (maxSize (step c op)) 1.
Proof.
  intros Hnodup Hsize. rewrite step_maxSize.
  destruct op as [key value|alive key|key|alive|]; cbn [step].
  - by apply set_size_bound.
  - unfold get. destruct (Map_get _ _); [|done]. destruct (alive _); [done|].
    unfold size in *. cbn. pose proof (Map_delete_length key (entries c)). lia.
  - unfold size in *. cbn. pose proof (Map_delete_length key (entries c)). lia.
  - unfold size in *. cbn.
    pose proof (length_filter (fun e : K * V => alive e.2 = true) (entries c)).
    lia.
  - unfold size. cbn. lia.
Qed.

Lemma run_size_bound ops c :
  NoDup (entries c).*1 ->
  size c <= Z.max (maxSize c) 1 ->
  size (run ops c) <= Z.max (maxSize c) 1.
Proof.
  revert c. induction ops as [|op ops IH]; intros c Hnodup Hsize; [done|].
  change (run (op :: ops) c) with (run ops (step c op)).
  rewrite <- (step_maxSize c op). apply IH.
  - by apply step_NoDup.
  - by apply step_size_bound.
Qed.

(** *** Properties of the specification *)

(** C8 on the code.  Whatever sequence of [set], [get], [delete],
    [cleanup] and [clear] is applied to a new cache, it never holds more
    than [max(capacity, 1)] entries.  For a capacity of at least one that
    is the capacity, and a [set] of a new key on a full cache evicts
    exactly the oldest entry: the entries afterwards are the earlier ones
    without the first, in their order, followed by the new one, and the
    size is still the capacity; below capacity a [set] evicts nothing.
    For a capacity of zero or less the bound of the specification fails:
    every [set] finds the cache full, deletes what there is to delete and
    stores all the same, so that the cache holds one entry, more than its
    capacity. *)
Theorem cache_bounded_single_eviction (capacity : Z) (ops : list (Op K V)) :
  let c := run ops (new capacity) in
  size c <= Z.max capacity 1
  /\ (1 <= capacity ->
      size c <= capacity
      /\ (forall (key : K) (value : V),
            size c = capacity -> Map_get key (entries c) = None ->
            exists (oldest : K) (v0 : V) (rest : list (K * V)),
              entries c = (oldest, v0) :: rest
              /\ entries (set key value c) = rest ++ [(key, value)]
              /\ size (set key value c) = capacity)
      /\ (forall (key : K) (value : V),
            size c < capacity ->
            entries (set key value c) = Map_set key value (entries c)))
  /\ (capacity <= 0 ->
      forall (key : K) (value : V),
        entries (set key value c) = [(key, value)]
        /\ size (set key value c) = 1
        /\ capacity < size (set key value c)).
Proof.
  intros c.
  assert (NoDup (entries c).*1) as Hnodup by (apply run_NoDup, NoDup_nil_2).
  assert (maxSize c = capacity) as Hmax by apply run_maxSize.
  assert (size c <= Z.max capacity 1) as Hbound.
  { apply (run_size_bound ops (new capacity)); [apply NoDup_nil_2|].
    unfold size. cbn. lia. }
  split; [done|]. split.
  - intros Hcap. assert (size c <= capacity) as Hsize by lia.
    split; [done|]. split.
    + intros key value Hfull Habsent.
      destruct (entries c) as [|[oldest v0] rest] eqn:Hentries.
      { unfold size in Hfull. rewrite Hentries in Hfull. cbn in Hfull. lia. }
      exists oldest, v0, rest. split; [done|].
      assert (entries (set key value c) = rest ++ [(key, value)]) as Hset.
      { rewrite (set_full key value c oldest v0 rest); try done.
        - apply Map_set_absent. apply Map_get_None in Habsent.
          rewrite fmap_cons in Habsent.
          by apply not_elem_of_cons in Habsent as [_ ?].
        - by rewrite Hentries.
        - lia. }
      split; [done|]. unfold size in *. rewrite Hset, length_app.
      rewrite Hentries in Hfull. cbn in *. lia.
    + intros key value Hroom. unfold set.
      destruct (Z.leb_spec (maxSize c) (size c)); [lia|done].
  - intros Hcap key value.
    assert (entries (set key value c) = [(key, value)]) as Hset.
    { destruct (entries c) as [|[oldest v0] rest] eqn:Hentries.
      - unfold set. rewrite Hentries. cbn [firstKey].
        destruct (_ <=? _); cbn; by rewrite Hentries.
      - rewrite (set_full key value c oldest v0 rest); try done.
        + destruct rest as [|e rest]; [done|].
          unfold size in Hbound. rewrite Hentries in Hbound. cbn in Hbound. lia.
        + by rewrite Hentries.
        + unfold size. lia. }
    split; [done|]. unfold size. rewrite Hset. cbn. lia.
Qed.

(** C10.  On a cache whose size equals its capacity, [set] first
    deletes the oldest entry and then stores the key, also when the key
    is already present.  So overwriting a present key other than the
    oldest removes the oldest entry (a different one, which a [get]
    would still have returned if its target is alive), leaves every
    other key as it was, and leaves the cache one entry below
    capacity. *)
Theorem full_cache_set_deletes_oldest (capacity : Z) (ops : list (Op K V))
    (key : K) (value : V) :
  let c := run ops (new capacity) in
  size c = capacity ->
  entries (set key value c) = Map_set key value (tail (entries c))
  /\ (forall (oldest : K) (v0 old : V),
        head (entries c) = Some (oldest, v0) ->
        key <> oldest ->
        Map_get key (entries c) = Some old ->
        Map_get oldest (entries (set key value c)) = None
        /\ Map_get key (entries (set key value c)) = Some value
        /\ (forall key' : K, key' <> oldest -> key' <> key ->
              Map_get key' (entries (set key value c)) = Map_get key' (entries c))
        /\ size (set key value c) = capacity - 1
        /\ (forall alive : V -> bool, alive v0 = true ->
              (get alive oldest c).1 = Some v0
              /\ (get alive oldest (set key value c)).1 = None)).
Proof.
  intros c Hfull.
  assert (NoDup (entries c).*1) as Hnodup by (apply run_NoDup, NoDup_nil_2).
  assert (maxSize c = capacity) as Hmax by apply run_maxSize.
  assert (entries (set key value c) = Map_set key value (tail (entries c))) as Hset.
  { destruct (entries c) as [|[oldest v0] rest] eqn:Hentries.
    - unfold set. rewrite Hentries. cbn [firstKey].
      destruct (_ <=? _); cbn; by rewrite Hentries.
    - apply (set_full key value c oldest v0 rest); [by rewrite Hentries|lia|done]. }
  split; [done|]. intros oldest v0 old Hhead Hne Hpresent.
  destruct (entries c) as [|[oldest' v0'] rest] eqn:Hentries; [done|].
  cbn in Hhead. injection Hhead as -> ->. cbn [tail] in Hset.
  rewrite fmap_cons in Hnodup. apply NoDup_cons in Hnodup as [Hnot Hnodup].
  cbn in Hpresent. destruct (decide (oldest = key)) as [|_]; [congruence|].
  assert (Map_get oldest (entries (set key value c)) = None) as Hgone.
  { rewrite Hset, Map_get_set_ne by done. by apply Map_get_None. }
  split; [done|]. split; [by rewrite Hset, Map_get_set|]. split; [|split].
  - intros key' Hne1 Hne2. rewrite Hset, Map_get_set_ne by done.
    cbn. by destruct (decide (oldest = key')).
  - unfold size in *. rewrite Hset.
    rewrite <- (length_fmap fst), Map_set_present, length_fmap
      by by eapply Map_get_Some_elem.
    rewrite Hentries in Hfull. cbn in Hfull. lia.
  - intros alive Halive. unfold get. rewrite Hgone, Hentries. cbn.
    destruct (decide (oldest = oldest)); [|done]. by rewrite Halive.
Qed.

End Cache.

Lemma cache_bounded_single_eviction_witness :
  size Samples.full_cache <= 2
  /\ entries (set 3%nat "c" Samples.full_cache) = [(2%nat, "b"); (3%nat, "c")]
  /\ size (set 1%nat "a" (new (K:=nat) (V:=string) 0)) = 1.
Proof.
  unfold Samples.full_cache.
  destruct (cache_bounded_single_eviction (K:=nat) (V:=string) 2
              [OpSet 1%nat "a"; OpSet 2%nat "b"]) as (_ & Hpositive & _).
  destruct (Hpositive ltac:(lia)) as (Hsize & Hevict & _).
  split; [exact Hsize|]. split.
  - destruct (Hevict 3%nat "c") as (oldest & v0 & rest & Hentries & Hset & _);
      [reflexivity ..|].
    rewrite Hset. vm_compute in Hentries. by injection Hentries as <- <- <-.
  - destruct (cache_bounded_single_eviction (K:=nat) (V:=string) 0 [])
      as (_ & _ & Hzero).
    by destruct (Hzero ltac:(lia) 1%nat "a") as (_ & Hone & _).
Defined.

Lemma full_cache_set_deletes_oldest_witness :
  entries Samples.full_cache = [(1%nat, "a"); (2%nat, "b")]
  /\ entries (set 2%nat "c" Samples.full_cache) = [(2%nat, "c")]
  /\ size (set 2%nat "c" Samples.full_cache) = 2 - 1.
Proof.
  unfold Samples.full_cache.
  destruct (full_cache_set_deletes_oldest (K:=nat) (V:=string) 2
              [OpSet 1%nat "a"; OpSet 2%nat "b"] 2%nat "c") as [Hset Hover];
    [reflexivity|].
  split; [reflexivity|]. split; [by rewrite Hset|].
  by destruct (Hover 1%nat "a" "b") as (_ & _ & _ & Hsize & _).
Defined.

End WeakRefCacheFacts.

(** ** The throttles *)

Module ThrottleFacts.

Lemma Qgtb_true (a b : Q) : Qgtb a b = true <-> (b < a)%Q.
Proof.
  unfold Qgtb. rewrite Qgt_alt.
  destruct (a ?= b)%Q; split; congruence.
Qed.

Lemma Qgtb_false (a b : Q) : Qgtb a b = false <-> (a <= b)%Q.
Proof.
  rewrite <- not_true_iff_false, Qgtb_true. split.
  - apply Qnot_lt_le.
  - apply Qle_not_lt.
Qed.

(** [shouldProcessResize] proceeds exactly when the draw exceeds the
    throttle rate. *)
Lemma shouldProcessResize_spec (self : UltraStableResizeSystemV2.t) (w : World) :
  (UltraStableResizeSystemV2.shouldProcessResize self w).1 = true
  <-> (UltraStableResizeSystemV2.throttleRate self < rand w (draws w))%Q.
Proof. unfold UltraStableResizeSystemV2.shouldProcessResize. cbn. apply Qgtb_true. Qed.

(** Comparison of binary64 values: [a < b] excludes [b < a]. *)
Lemma SFcompare_Lt_Gt (a b : spec_float) :
  SFcompare a b = Some Lt -> SFcompare b a = Some Gt.
Proof.
  destruct a as [sa|sa| |sa ma ea], b as [sb|sb| |sb mb eb]; cbn;
    try destruct sa; try destruct sb; try done.
  - rewrite (Z.compare_antisym ea eb).
    destruct (ea ?= eb)%Z; cbn; try done.
    rewrite (ZC4 mb ma). by destruct (Pos.compare_cont Eq ma mb).
  - rewrite (Z.compare_antisym ea eb).
    destruct (ea ?= eb)%Z; cbn; try done.
    rewrite (ZC4 mb ma). by destruct (Pos.compare_cont Eq ma mb).
Qed.

Lemma float_ltb_asym (a b : float) :
  (a <? b)%float = true -> (b <? a)%float = false.
Proof.
  rewrite !ltb_spec. unfold SFltb. intros Hlt.
  destruct (SFcompare (Prim2SF a) (Prim2SF b)) as [[]|] eqn:Hc; try done.
  by rewrite (SFcompare_Lt_Gt _ _ Hc).
Qed.

(** The binary64 values that compare equal to zero are [+0] and [-0]. *)
Lemma float_eqb_zero (a : float) :
  (a =? 0)%float = true -> a = 0%float \/ a = (-0)%float.
Proof.
  rewrite FloatAxioms.eqb_spec. unfold SFeqb.
  change (Prim2SF 0) with (S754_zero false).
  rewrite <- (SF2Prim_Prim2SF a) at 2 3.
  destruct (Prim2SF a) as [[]|[]| |[] m e]; cbn; try done; intros _;
    [right|left]; reflexivity.
Qed.

(** [shouldProcessFrame] skips exactly when the draw exceeds the binary64
    difference of one and the effective throttle rate. *)
Lemma shouldProcessFrame_spec (self : PerformanceOptimizer.t)
    (currentTime random : float) :
  (PerformanceOptimizer.shouldProcessFrame currentTime random self).1 = true
  <-> (1 - PerformanceOptimizer.effectiveThrottleRate self <? random)%float = false.
Proof.
  unfold PerformanceOptimizer.shouldProcessFrame. cbv zeta.
  set (self1 := PerformanceOptimizer.mk _ _ _ _ _).
  assert (PerformanceOptimizer.effectiveThrottleRate self1
          = PerformanceOptimizer.effectiveThrottleRate self) as -> by done.
  by destruct (_ <? _)%float.
Qed.

(** C9, as the code has it.  [shouldProcessResize] returns [true] exactly
    when the draw exceeds the throttle rate; so with a rate of [0] it
    returns [true] for every draw above [0] and [false] for the draw [0].
    [shouldProcessFrame] returns [true] exactly when the draw does not
    exceed [1 - p], where [p] is the effective throttle rate and the
    difference is the binary64 one, rounded as the code computes it; so
    with an effective rate of zero it returns [true] for every draw below
    one, and at the rate [0.9], where [1 - 0.9] is the binary64 value
    [0.09999999999999998], it skips the draw [0.1]. *)
Theorem permit_checks :
  (forall (self : UltraStableResizeSystemV2.t) (w : World),
      (UltraStableResizeSystemV2.shouldProcessResize self w).1 = true
      <-> (UltraStableResizeSystemV2.throttleRate self < rand w (draws w))%Q)
  /\ (forall (self : UltraStableResizeSystemV2.t) (w : World),
        (UltraStableResizeSystemV2.throttleRate self == 0)%Q ->
        ((UltraStableResizeSystemV2.shouldProcessResize self w).1 = true
         <-> (0 < rand w (draws w))%Q))
  /\ (forall (self : PerformanceOptimizer.t) (currentTime random : float),
        (PerformanceOptimizer.shouldProcessFrame currentTime random self).1 = true
        <-> (1 - PerformanceOptimizer.effectiveThrottleRate self <? random)%float
            = false)
  /\ (forall (self : PerformanceOptimizer.t) (currentTime random : float),
        (PerformanceOptimizer.effectiveThrottleRate self =? 0)%float = true ->
        (random <? 1)%float = true ->
        (PerformanceOptimizer.shouldProcessFrame currentTime random self).1 = true)
  /\ (forall (self : PerformanceOptimizer.t) (currentTime : float),
        PerformanceOptimizer.effectiveThrottleRate self = 0.9%float ->
        (PerformanceOptimizer.shouldProcessFrame currentTime 0.1 self).1 = false).
Proof.
  split; [apply shouldProcessResize_spec|]. split; [|split; [|split]].
  - intros self w Hzero. rewrite shouldProcessResize_spec. by rewrite Hzero.
  - apply shouldProcessFrame_spec.
  - intros self currentTime random Hzero Hdraw. apply shouldProcessFrame_spec.
    apply float_ltb_asym in Hdraw.
    by destruct (float_eqb_zero _ Hzero) as [-> | ->].
  - intros self currentTime Hrate.
    apply not_true_iff_false. rewrite shouldProcessFrame_spec, Hrate. done.
Qed.

Lemma permit_checks_witness :
  (UltraStableResizeSystemV2.shouldProcessResize Samples.unthrottled
     (Samples.drawing 0.5)).1 = true
  /\ (PerformanceOptimizer.shouldProcessFrame 0 0.25 Samples.halfThrottled).1 = true
  /\ (PerformanceOptimizer.shouldProcessFrame 0 0.999 Samples.frameUnthrottled).1
     = true.
Proof.
  destruct permit_checks as (Hresize & _ & Hframe & Hzero & _). split; [|split].
  - apply Hresize. vm_compute. reflexivity.
  - apply Hframe. vm_compute. reflexivity.
  - apply Hzero; vm_compute; reflexivity.
Defined.

(** C9 fails on the code.  With a throttle rate of [0], the draw [0]
    makes [shouldProcessResize] return [false]; and [shouldProcessFrame],
    at a skip probability of one half, returns [false] for the draw
    [0.75], which exceeds it, and [true] for the draw [0.25], which does
    not. *)
Lemma permit_is_not_draw_exceeds_rate :
  (UltraStableResizeSystemV2.throttleRate Samples.unthrottled = 0%Q
   /\ (UltraStableResizeSystemV2.shouldProcessResize Samples.unthrottled
         (Samples.drawing 0)).1 = false)
  /\ (PerformanceOptimizer.effectiveThrottleRate Samples.halfThrottled = 0.5%float
      /\ (PerformanceOptimizer.shouldProcessFrame 0 0.75 Samples.halfThrottled).1
         = false
      /\ (PerformanceOptimizer.shouldProcessFrame 0 0.25 Samples.halfThrottled).1
         = true).
Proof. vm_compute. by repeat split. Qed.

(** The adaptive rate is computed in binary64 as well: after eleven
    frames of [4.8] ms under a budget of [16] ms the ten-frame mean is
    [4.799999999999999], below the rounded [16 * 0.3], so a configured
    rate of one half becomes [0.9] and the draw [0.3] is skipped. *)
Lemma adaptive_rate_rounds_in_binary64 :
  PerformanceOptimizer.effectiveThrottleRate Samples.afterElevenFrames = 0.9%float
  /\ (PerformanceOptimizer.shouldProcessFrame 0 0.3 Samples.afterElevenFrames).1
     = false.
Proof. vm_compute. by split. Qed.

End ThrottleFacts.

(** ** Backend selection *)

Module DispatchFacts.
Import UltraStableResizeSystemV2.

Lemma measurements_app (id : nat) (l l' : list Event) :
  measurements id (l ++ l') = (measurements id l + measurements id l')%nat.
Proof.
  induction l as [|e l IH]; [done|].
  destruct e; cbn; rewrite IH; lia.
Qed.

Lemma measurements_run (id : nat) (l : list Event) (method : string) :
  measurements id (l ++ [EvRun method]) = measurements id l.
Proof. rewrite measurements_app. cbn. lia. Qed.

Lemma measurements_measure (id : nat) (l : list Event) :
  measurements id (l ++ [EvMeasure id]) = S (measurements id l).
Proof. rewrite measurements_app. cbn. case_decide; [lia|done]. Qed.

Lemma backends_run (l : list Event) (method : string) :
  backends (l ++ [EvRun method]) = backends l ++ [method].
Proof. unfold backends. by rewrite omap_app. Qed.

Lemma backends_measure (l : list Event) (id : nat) :
  backends (l ++ [EvMeasure id]) = backends l.
Proof. unfold backends. rewrite omap_app. cbn. by rewrite app_nil_r. Qed.

(** A CPU run: the backend is logged, the rectangle is read once, and the
    promise resolves unless the reading or [getComputedStyle] throws. *)
Lemma processWithCPU_eq (el : Element) (self : t) (w : World) :
  processWithCPU el self w
  = (match getBoundingClientRect el (measurements (identity el) (log w)),
           getComputedStyle el with
     | Returns rect, Some styles =>
         Resolves (mkResult true "cpu" (CpuGeometry (Some rect) styles) el)
     | ReturnsNothing, Some styles =>
         Resolves (mkResult true "cpu" (CpuGeometry None styles) el)
     | _, _ => Pending
     end, self, logged (EvMeasure (identity el)) (logged (EvRun "cpu") w)).
Proof.
  unfold processWithCPU, bind, emit, measure, ret. cbn [log logged].
  rewrite measurements_run.
  by destruct (getBoundingClientRect el _), (getComputedStyle el).
Qed.

Lemma processWithCPU_method (el : Element) (self : t) (w : World)
    (result : ProcessResult) :
  (processWithCPU el self w).1.1 = Resolves result -> method result = "cpu".
Proof.
  rewrite processWithCPU_eq. cbn [fst].
  destruct (getBoundingClientRect el (measurements (identity el) (log w))),
           (getComputedStyle el); intros ?; by simplify_eq.
Qed.

(** A GPU run on a supported processor: the rectangle is read once; the
    promise resolves with the GPU's geometry if the reading returns a
    rectangle, and the CPU backend is run otherwise. *)
Lemma processWithGPU_eq (el : Element) (self : t) (w : World) :
  processWithGPU (mkGPU true) el self w
  = match getBoundingClientRect el (measurements (identity el) (log w)) with
    | Returns rect =>
        (Resolves (mkResult true "gpu"
                     (GpuGeometry rect (width rect * height rect)%float
                                  (width rect / height rect)%float) el),
         count_gpu self, logged (EvMeasure (identity el)) (logged (EvRun "gpu") w))
    | _ =>
        processWithCPU el self
          (logged (EvMeasure (identity el)) (logged (EvRun "gpu") w))
    end.
Proof.
  unfold processWithGPU, processGeometry, measureAll, bind, emit, measure, ret.
  cbn [log logged negb gpu_isSupported]. rewrite measurements_run.
  by destruct (getBoundingClientRect el _).
Qed.

(** A worker run: the element is serialized, which reads the rectangle
    once; if that throws or the worker's promise rejects, the CPU backend
    is run. *)
Lemma processWithWorker_eq (host : Host) (el : Element) (self : t) (w : World) :
  processWithWorker host el self w
  = let failed := logged (EvMeasure (identity el)) (logged (EvRun "worker") w) in
    match getBoundingClientRect el (measurements (identity el) (log w)),
          processInWorker host with
    | Throws, _ => processWithCPU el self failed
    | _, Rejects _ => processWithCPU el self failed
    | _, Resolves result =>
        (Resolves (mkResult true "worker" (WorkerData result) el),
         count_worker self, failed)
    | _, Pending => (Pending, self, failed)
    end.
Proof.
  unfold processWithWorker, bind, emit, measure, ret.
  cbn [log logged]. rewrite measurements_run.
  by destruct (getBoundingClientRect el _), (processInWorker host).
Qed.

(** [dispatch] runs the backend that [selected] names. *)
Lemma dispatch_selected (host : Host) (el : Element) (config : ElementConfig)
    (self : t) (w : World) :
  dispatch host el config self w
  = if String.eqb (selected config self) "gpu"
    then processWithGPU (mkGPU true) el self w
    else if String.eqb (selected config self) "worker"
         then processWithWorker host el self w
         else processWithCPU el self w.
Proof.
  unfold dispatch, selected, gpu_available, worker_available.
  destruct (gpuProcessor self) as [[[]]|]; cbn;
    destruct (workerManager self) as [[[]]|]; cbn;
    repeat (destruct (bool_decide _); cbn); done.
Qed.

Lemma selected_cases (config : ElementConfig) (self : t) :
  selected config self = "gpu" \/ selected config self = "worker"
  \/ selected config self = "cpu".
Proof.
  unfold selected. destruct (gpu_available _ _); [by left|].
  destruct (worker_available _ _); [by right; left | by right; right].
Qed.

Lemma processWithCPU_falls_back (sel : string) (el : Element) (self : t)
    (w : World) :
  falls_back sel el self w
    (processWithCPU el self (logged (EvMeasure (identity el)) (logged (EvRun sel) w))).
Proof.
  unfold falls_back. cbv zeta. split; [done|].
  rewrite processWithCPU_eq. cbn [fst snd log logged].
  rewrite measurements_measure, measurements_run.
  rewrite backends_measure, backends_run, backends_measure, backends_run.
  rewrite <- (assoc_L (++)). split; [done|]. split; [done|].
  split; [|split].
  - by intros rect styles -> ->.
  - by intros styles -> ->.
  - intros [-> | ->]; [done|]. by destruct (getBoundingClientRect el _).
Qed.

(** *** Properties of the specification *)

(** C3, as the code has it.  [dispatch] runs the selected backend first
    and once.  After it, either nothing else runs, or the CPU backend
    runs as the fallback; no other switch exists (a failed GPU run never
    goes to the worker), and nothing is retried on the selected backend.
    The fallback is taken whenever the selected backend fails: a GPU run
    whose geometry comes back [null], a worker run whose element cannot
    be serialized, and a worker run whose promise rejects.  The call then
    continues as the CPU backend does and leaves the counters alone: it
    resolves with [method: 'cpu'] and the rectangle that the CPU run reads
    (the reading after the failed one), and stays pending only if that
    reading or [getComputedStyle] throws.  When the selected backend does
    not fail the result is its own. *)
Theorem failed_backend_falls_back_to_cpu (host : Host) (el : Element)
    (config : ElementConfig) (self : t) (w : World) :
  let r := dispatch host el config self w in
  let reading := getBoundingClientRect el (measurements (identity el) (log w)) in
  let ran_once := logged (EvMeasure (identity el))
                    (logged (EvRun (selected config self)) w) in
  (exists ran : list string,
      backends (log r.2) = backends (log w) ++ ran
      /\ (ran = [selected config self]
          \/ (ran = [selected config self; "cpu"] /\ selected config self <> "cpu"))
      /\ forall result : ProcessResult,
           r.1.1 = Resolves result ->
           method result = selected config self \/ method result = "cpu")
  /\ (selected config self = "gpu" ->
      (forall rect, reading <> Returns rect) ->
      falls_back "gpu" el self w r)
  /\ (selected config self = "worker" ->
      reading = Throws ->
      falls_back "worker" el self w r)
  /\ (selected config self = "worker" ->
      reading <> Throws ->
      forall e : Error, processInWorker host = Rejects e ->
      falls_back "worker" el self w r)
  /\ (selected config self = "gpu" ->
      forall rect, reading = Returns rect ->
      r = (Resolves (mkResult true "gpu"
                       (GpuGeometry rect (width rect * height rect)%float
                                    (width rect / height rect)%float) el),
           count_gpu self, ran_once))
  /\ (selected config self = "worker" ->
      reading <> Throws ->
      (forall result, processInWorker host = Resolves result ->
         r = (Resolves (mkResult true "worker" (WorkerData result) el),
              count_worker self, ran_once))
      /\ (processInWorker host = Pending -> r = (Pending, self, ran_once)))
  /\ (selected config self = "cpu" -> r = processWithCPU el self w).
Proof.
  cbv zeta. rewrite dispatch_selected.
  destruct (selected_cases config self) as [Hsel | [Hsel | Hsel]]; rewrite Hsel;
    cbn [String.eqb Ascii.eqb Bool.eqb].
  - (* the GPU is selected *)
    rewrite processWithGPU_eq.
    pose proof (processWithCPU_falls_back "gpu" el self w) as Hfb.
    destruct (getBoundingClientRect el _) as [| |rect] eqn:Hreading.
    + split; [|split_and!; try done; by intros; exact Hfb].
      exists ["gpu"; "cpu"]. destruct Hfb as (_ & Hlog & _). split; [done|].
      split; [by right|]. intros result ?%processWithCPU_method. by right.
    + split; [|split_and!; try done; by intros; exact Hfb].
      exists ["gpu"; "cpu"]. destruct Hfb as (_ & Hlog & _). split; [done|].
      split; [by right|]. intros result ?%processWithCPU_method. by right.
    + split; [|split_and!; try done].
      * exists ["gpu"]. cbn [fst snd log logged].
        rewrite backends_measure, backends_run. split; [done|].
        split; [by left|]. intros result [= <-]. by left.
      * intros _ Hnot. by destruct (Hnot rect).
      * by intros _ rect' [= <-].
  - (* the worker is selected *)
    rewrite processWithWorker_eq. cbv zeta.
    pose proof (processWithCPU_falls_back "worker" el self w) as Hfb.
    assert (exists ran : list string,
              backends (log (processWithCPU el self
                               (logged (EvMeasure (identity el))
                                  (logged (EvRun "worker") w))).2)
              = backends (log w) ++ ran
              /\ (ran = ["worker"] \/ (ran = ["worker"; "cpu"] /\ "worker" <> "cpu"))
              /\ forall result : ProcessResult,
                   (processWithCPU el self
                      (logged (EvMeasure (identity el))
                         (logged (EvRun "worker") w))).1.1 = Resolves result ->
                   method result = "worker" \/ method result = "cpu") as Hcpu.
    { exists ["worker"; "cpu"]. destruct Hfb as (_ & Hlog & _). split; [done|].
      split; [by right|]. intros result ?%processWithCPU_method. by right. }
    assert (backends (log (logged (EvMeasure (identity el))
                             (logged (EvRun "worker") w)))
            = backends (log w) ++ ["worker"]) as Honce.
    { cbn [log logged]. by rewrite backends_measure, backends_run. }
    destruct (getBoundingClientRect el _) as [| |rect] eqn:Hreading,
             (processInWorker host) as [result|e|] eqn:Hworker;
      (split;
       [first [ exact Hcpu
              | exists ["worker"]; split; [exact Honce|];
                split; [by left|]; cbn [fst]; intros result' Hr; inversion Hr; by left ]
       | split_and!; try done;
         first [ by intros; simplify_eq
               | by intros; exact Hfb
               | by intros; split; intros; simplify_eq ]]).
  - (* the CPU is selected *)
    split; [|split_and!; try done].
    exists ["cpu"]. rewrite processWithCPU_eq. cbn [fst snd log logged].
    rewrite backends_measure, backends_run. split; [done|]. split; [by left|].
    intros result Hr. left.
    apply (processWithCPU_method el self w). by rewrite processWithCPU_eq.
Qed.

Lemma failed_backend_falls_back_to_cpu_witness :
  let r := dispatch Samples.workerTimesOut Samples.detached Samples.noConfig
             Samples.workerSystem Samples.world0 in
  backends (log r.2) = ["worker"; "cpu"]
  /\ r.1.1 = Resolves (mkResult true "cpu"
                         (CpuGeometry (Some (mkRect 0 0 100 50)) Samples.inFlow)
                         Samples.detached).
Proof.
  intros r.
  destruct (failed_backend_falls_back_to_cpu Samples.workerTimesOut Samples.detached
              Samples.noConfig Samples.workerSystem Samples.world0)
    as (_ & _ & Hserialize & _).
  destruct (Hserialize eq_refl eq_refl) as (_ & Hlog & _ & Hresolves & _).
  split; [exact Hlog|]. by apply Hresolves.
Defined.

(** C3 fails on the code: the worker backend is the one selected, its
    promise rejects, and the registration silently runs the CPU backend
    and resolves with [method: 'cpu']. *)
Lemma worker_failure_switches_to_cpu :
  let r := safeRegisterElement Samples.workerTimesOut Samples.box Samples.noConfig
             Samples.workerSystem Samples.world0 in
  selected Samples.noConfig Samples.workerSystem = "worker"
  /\ backends (log r.2) = ["worker"; "cpu"]
  /\ r.1.1 = Resolves (Processed (mkResult true "cpu"
                                    (CpuGeometry (Some (mkRect 0 0 100 50))
                                                 Samples.inFlow)
                                    Samples.box)).
Proof. vm_compute. by repeat split. Qed.

End DispatchFacts.
